(** * Team communication bot (bot.py): credential rotation, polling cursors,
      fair assignment.

    The development embeds the stateful core of [bot.py]: the persistent
    [BotState], the multi-token client with its rotation loop, the three
    monitors (official account, tracked accounts, feed), the manager
    assigner and the official-account job.  Remote services (the Twitter
    API, the feed server) are oracles over an abstract [World]; every call
    of [BotState.save] and of [bot.send_message] is recorded, in order, in
    an event trace.  *)

From Stdlib Require Import ZArith Ascii String List Lia.
From Stdlib Require Import DecimalString DecimalZ DecimalPos.
From stdpp Require Import base option list gmap strings fin_maps.

Local Open Scope Z_scope.
Local Open Scope string_scope.

(** ** Strings as Python uses them here *)

Module PyStr.

(** [str.lower] on a string held as its bytes: the letters [A]..[Z]
    move to [a]..[z], every other byte is kept (the bytes of a character
    outside ASCII are not touched). *)
Definition lower_ascii (c : ascii) : ascii :=
  let n := nat_of_ascii c in
  if (Nat.leb 65 n && Nat.leb n 90)%bool then ascii_of_nat (n + 32) else c.

Fixpoint lower (s : string) : string :=
  match s with
  | EmptyString => EmptyString
  | String c s' => String (lower_ascii c) (lower s')
  end.

(** [s.startswith(p)]. *)
Fixpoint startswith (p s : string) : bool :=
  match p, s with
  | EmptyString, _ => true
  | String _ _, EmptyString => false
  | String a p', String b s' => if Ascii.eqb a b then startswith p' s' else false
  end.

(** [needle in hay]: some suffix of [hay] starts with [needle]. *)
Fixpoint contains (needle hay : string) : bool :=
  if startswith needle hay then true
  else match hay with
       | EmptyString => false
       | String _ hay' => contains needle hay'
       end.

(** [s[:n]]. *)
Definition take (n : nat) (s : string) : string := substring 0 n s.

(** Truthiness of a string: [if s:] holds for non-empty strings. *)
Definition truthy (s : string) : bool :=
  match s with EmptyString => false | String _ _ => true end.

(** Truthiness of an optional string ([None] and [''] are both falsy). *)
Definition truthy_opt (o : option string) : bool :=
  match o with None => false | Some s => truthy s end.

End PyStr.

(** ** Configuration constants *)

Definition TWITTER_ACCOUNT : string := "beeos_arenavs".
Definition MEDIUM_USERNAME : string := "VS1.finance".

Definition INFLUENCER_MANAGERS : list (string * Z) :=
  [("Igor", 422264082); ("Roman", 883728320); ("Dyma", 6993427932)].

Definition TEAM_MEMBERS : list (string * Z) :=
  [("Mika", 449742082); ("Marie", 276787341); ("Phillipe", 1271922543);
   ("Tsotne", 6733503938); ("Fehmi", 5233426523); ("Danyl", 1078976724)].

(** ** Persistent state *)

(** [class BotState]: the seven attributes set in [__init__].  The two
    [defaultdict(int)] attributes are maps read with default [0]. *)
Record BotState := mkBotState {
  last_tweet_id : option string;
  last_medium_article : option string;
  influencer_last_tweets : gmap string string;
  influencer_user_ids : gmap string string;
  current_token_index : Z;
  token_usage_counts : gmap Z Z;
  manager_assignment_counts : gmap string Z
}.

(** The state of a process started without a state file. *)
Definition initial_state : BotState :=
  mkBotState None None ∅ ∅ 0 ∅ ∅.

Definition set_last_tweet_id (v : option string) (b : BotState) : BotState :=
  mkBotState v (last_medium_article b) (influencer_last_tweets b)
    (influencer_user_ids b) (current_token_index b) (token_usage_counts b)
    (manager_assignment_counts b).

Definition set_last_medium_article (v : option string) (b : BotState) : BotState :=
  mkBotState (last_tweet_id b) v (influencer_last_tweets b)
    (influencer_user_ids b) (current_token_index b) (token_usage_counts b)
    (manager_assignment_counts b).

Definition set_influencer_last_tweets (v : gmap string string) (b : BotState) : BotState :=
  mkBotState (last_tweet_id b) (last_medium_article b) v
    (influencer_user_ids b) (current_token_index b) (token_usage_counts b)
    (manager_assignment_counts b).

Definition set_influencer_user_ids (v : gmap string string) (b : BotState) : BotState :=
  mkBotState (last_tweet_id b) (last_medium_article b) (influencer_last_tweets b)
    v (current_token_index b) (token_usage_counts b)
    (manager_assignment_counts b).

Definition set_current_token_index (v : Z) (b : BotState) : BotState :=
  mkBotState (last_tweet_id b) (last_medium_article b) (influencer_last_tweets b)
    (influencer_user_ids b) v (token_usage_counts b)
    (manager_assignment_counts b).

Definition set_token_usage_counts (v : gmap Z Z) (b : BotState) : BotState :=
  mkBotState (last_tweet_id b) (last_medium_article b) (influencer_last_tweets b)
    (influencer_user_ids b) (current_token_index b) v
    (manager_assignment_counts b).

Definition set_manager_assignment_counts (v : gmap string Z) (b : BotState) : BotState :=
  mkBotState (last_tweet_id b) (last_medium_article b) (influencer_last_tweets b)
    (influencer_user_ids b) (current_token_index b) (token_usage_counts b) v.

(** [d[k]] on a [defaultdict(int)] and [d.get(k, 0)]: both read [0] for
    an absent key (only the former would insert it, and the code uses it
    solely inside [+= 1], which writes the key anyway). *)
Definition count_of `{Countable K} (d : gmap K Z) (k : K) : Z :=
  default 0 (d !! k).

(** [d[k] += 1]. *)
Definition bump `{Countable K} (d : gmap K Z) (k : K) : gmap K Z :=
  <[k := count_of d k + 1]> d.

(** The rotation part of the state: the start index and the usage
    counters. *)
Definition rotation_view (b : BotState) : Z * gmap Z Z :=
  (current_token_index b, token_usage_counts b).

(** ** Observable events *)

(** What leaves the process: a write of the state file with the
    snapshot written ([BotState.save]) and a message handed to the
    chat transport ([bot.send_message]). *)
Inductive Event :=
| Saved (snapshot : BotState)
| Sent (chat_id : Z) (text : string).

Definition is_sent (e : Event) : bool :=
  match e with Sent _ _ => true | Saved _ => false end.

(** ** Values exchanged with the remote services *)

(** A tweet object of a [get_users_tweets] response: identifier (as
    [str(tweet.id)] prints it), text, and [created_at] already in ISO
    format when present. *)
Record RawTweet := mkRawTweet {
  raw_id : string;
  raw_text : string;
  raw_created_at : option string
}.

(** The dict built by [get_user_tweets] for each tweet. *)
Record Tweet := mkTweet {
  tw_id : string;
  tw_text : string;
  tw_link : string;
  tw_username : string;
  tw_created_at : option string
}.

(** An entry of the parsed feed; every key may be absent. *)
Record FeedEntry := mkFeedEntry {
  fe_id : option string;
  fe_link : option string;
  fe_title : option string;
  fe_summary : option string;
  fe_published : option string
}.

(** The dict built by [check_for_new_articles] for each new entry. *)
Record Article := mkArticle {
  ar_title : string;
  ar_link : string;
  ar_summary : string;
  ar_published : string
}.

(** How a call into a remote client ends: it returns, raises
    [tweepy.TooManyRequests], or raises any other [Exception] (with the
    text [str(e)]). *)
Inductive Outcome (R : Type) :=
| Returned (result : R)
| TooManyRequests
| Raised (msg : string).
Arguments Returned {R} result.
Arguments TooManyRequests {R}.
Arguments Raised {R} msg.

(** What the feed request gives: an exception inside the [try], or a
    response with its status code and the entries [feedparser] reads from
    its body. *)
Inductive FeedResult :=
| FeedRaised
| FeedResponse (status_code : Z) (entries : list FeedEntry).

(** A credential: the bearer token a [tweepy.Client] was built from. *)
Definition Client := string.

(** ** The process and its environment *)

Section Bot.

(** The remote side: an abstract world and the three requests the code
    sends to it.  A request may answer differently each time, so every
    oracle takes the world and gives the next one. *)
Context {World : Type}.
Variable api_get_user :
  Client -> string -> World -> Outcome (option string) * World.
Variable api_get_users_tweets :
  Client -> string -> option string -> World ->
  Outcome (option (list RawTweet)) * World.
Variable http_get_feed : string -> World -> FeedResult * World.

(** The running process: the in-memory [BotState], the world, and the
    events so far, oldest first. *)
Record Machine := mkMachine {
  bot : BotState;
  world : World;
  events : list Event
}.

Definition with_bot (f : BotState -> BotState) (m : Machine) : Machine :=
  mkMachine (f (bot m)) (world m) (events m).

Definition with_world (w : World) (m : Machine) : Machine :=
  mkMachine (bot m) w (events m).

Definition emit (e : Event) (m : Machine) : Machine :=
  mkMachine (bot m) (world m) (events m ++ [e]).

(** [BotState.save]: the whole state is written to the state file.  A
    write error is logged and swallowed by [save]; the event stands for
    the call. *)
Definition save (m : Machine) : Machine := emit (Saved (bot m)) m.

(** *** MultiTokenTwitterClient *)

(** A closure passed to [_try_all_clients]: called with a client, it
    returns or raises, and may change the process on the way. *)
Definition Operation (R : Type) : Type :=
  Client -> Machine -> Outcome R * Machine.

(** The result of [_try_all_clients]: the value returned ([None] when
    no client succeeded), the [errors] list (token number and reason),
    the process afterwards, and, as a ghost trace, the client indices
    on which [operation] was invoked, in order. *)
Record TryResult (R : Type) := mkTryResult {
  tr_result : option R;
  tr_errors : list (Z * string);
  tr_tried : list Z;
  tr_machine : Machine
}.
Arguments mkTryResult {R} _ _ _ _.
Arguments tr_result {R} _.
Arguments tr_errors {R} _.
Arguments tr_tried {R} _.
Arguments tr_machine {R} _.

(** The body of [for i in range(len(self.clients))]. *)
Fixpoint try_clients {R} (operation : Operation R) (clients : list Client)
    (start_index : Z) (range : list Z)
    (errors : list (Z * string)) (tried : list Z) (m : Machine)
    : TryResult R :=
  match range with
  | [] => mkTryResult None errors tried m
  | i :: range' =>
      let client_index := (start_index + i) `mod` Z.of_nat (length clients) in
      let client := clients !!! Z.to_nat client_index in
      match operation client m with
      | (Returned result, m1) =>
          let m2 := with_bot (set_current_token_index client_index) m1 in
          let m3 := with_bot (fun b =>
                      set_token_usage_counts
                        (bump (token_usage_counts b) client_index) b) m2 in
          mkTryResult (Some result) errors (tried ++ [client_index]) (save m3)
      | (TooManyRequests, m1) =>
          try_clients operation clients start_index range'
            (errors ++ [(client_index + 1, "Rate limited")])
            (tried ++ [client_index]) m1
      | (Raised msg, m1) =>
          try_clients operation clients start_index range'
            (errors ++ [(client_index + 1, msg)])
            (tried ++ [client_index]) m1
      end
  end.

Definition _try_all_clients {R} (operation : Operation R)
    (clients : list Client) (m : Machine) : TryResult R :=
  match clients with
  | [] => mkTryResult None [] [] m
  | _ :: _ =>
      let start_index := current_token_index (bot m) in
      try_clients operation clients start_index
        (seqZ 0 (Z.of_nat (length clients))) [] [] m
  end.

(** The closure [operation] of [get_user_tweets]. *)
Definition get_user_tweets_operation (username : string)
    (since_id : option string) : Operation (option (list RawTweet)) :=
  fun client m =>
    let cached := influencer_user_ids (bot m) !! username in
    let resolved : Outcome string * Machine :=
      if PyStr.truthy_opt cached then (Returned (default "" cached), m)
      else
        match api_get_user client username (world m) with
        | (Returned (Some user_id), w) =>
            let m1 := with_bot (fun b =>
                        set_influencer_user_ids
                          (<[username := user_id]> (influencer_user_ids b)) b)
                        (with_world w m) in
            (Returned user_id, save m1)
        | (Returned None, w) =>
            (Raised ("User not found: " ++ username), with_world w m)
        | (TooManyRequests, w) => (TooManyRequests, with_world w m)
        | (Raised msg, w) => (Raised msg, with_world w m)
        end in
    match resolved with
    | (Returned user_id, m1) =>
        let since := if PyStr.truthy_opt since_id then since_id else None in
        let '(out, w) := api_get_users_tweets client user_id since (world m1) in
        (out, with_world w m1)
    | (TooManyRequests, m1) => (TooManyRequests, m1)
    | (Raised msg, m1) => (Raised msg, m1)
    end.

Definition tweet_dict (username : string) (tweet : RawTweet) : Tweet :=
  mkTweet (raw_id tweet) (raw_text tweet)
    ("https://x.com/" ++ username ++ "/status/" ++ raw_id tweet)
    username (raw_created_at tweet).

Definition get_user_tweets (clients : list Client) (username : string)
    (since_id : option string) (m : Machine) : list Tweet * Machine :=
  let r := _try_all_clients (get_user_tweets_operation username since_id)
             clients m in
  match tr_result r with
  | Some (Some (tweet :: data)) =>
      (map (tweet_dict username) (tweet :: data), tr_machine r)
  | _ => ([], tr_machine r)
  end.

(** *** TwitterMonitor *)

Definition check_for_new_tweets (clients : list Client) (m : Machine)
    : list Tweet * Machine :=
  let '(tweets, m1) :=
    get_user_tweets clients TWITTER_ACCOUNT (last_tweet_id (bot m)) m in
  match tweets with
  | first :: _ =>
      (tweets, save (with_bot (set_last_tweet_id (Some (tw_id first))) m1))
  | [] => (tweets, m1)
  end.

Definition is_twitter_space (tweet : Tweet) : bool :=
  let text := PyStr.lower (tw_text tweet) in
  PyStr.contains "space" text || PyStr.contains "spaces" text
  || PyStr.contains "twitter.com/i/spaces" text.

(** *** InfluencerMonitor *)

(** The test of the inner loop: the tweet mentions the official
    account. *)
Definition mentions_account (tweet : Tweet) : bool :=
  PyStr.contains (PyStr.lower ("@" ++ TWITTER_ACCOUNT))
                 (PyStr.lower (tw_text tweet)).

(** The loop state of [check_influencer_posts]: [new_posts], the
    process, and the ghost list of every tweet fetched in the run. *)
Record InfluencerRun := mkInfluencerRun {
  new_posts : list Tweet;
  fetched : list Tweet;
  run_machine : Machine
}.

(** The body of [for username in check_list].  The pause between two
    requests ([asyncio.sleep]) has no counterpart here, and the [except]
    branch of the body is not reached: [get_user_tweets] turns every
    failure of the remote side into the empty list. *)
Definition check_one_influencer (clients : list Client) (username : string)
    (r : InfluencerRun) : InfluencerRun :=
  let m := run_machine r in
  let username_lower := PyStr.lower username in
  let user_id := influencer_user_ids (bot m) !! username_lower in
  if negb (PyStr.truthy_opt user_id) then r
  else
    let since_id := influencer_last_tweets (bot m) !! username_lower in
    let '(tweets, m1) := get_user_tweets clients username since_id m in
    match tweets with
    | first :: _ =>
        let m2 := with_bot (fun b =>
                    set_influencer_last_tweets
                      (<[username_lower := tw_id first]>
                         (influencer_last_tweets b)) b) m1 in
        mkInfluencerRun (new_posts r ++ filter (fun t => mentions_account t = true) tweets)
          (fetched r ++ tweets) m2
    | [] => mkInfluencerRun (new_posts r) (fetched r) m1
    end.

Definition influencer_loop (clients : list Client) (check_list : list string)
    (r : InfluencerRun) : InfluencerRun :=
  fold_left (fun r username => check_one_influencer clients username r)
            check_list r.

Definition batch_size : nat := 50.

Definition check_influencer_run (clients : list Client)
    (influencers : list string) (m : Machine) : InfluencerRun :=
  match influencers with
  | [] => mkInfluencerRun [] [] m
  | _ :: _ =>
      let check_list := take batch_size influencers in
      let r := influencer_loop clients check_list (mkInfluencerRun [] [] m) in
      match new_posts r with
      | _ :: _ => mkInfluencerRun (new_posts r) (fetched r) (save (run_machine r))
      | [] => r
      end
  end.

Definition check_influencer_posts (clients : list Client)
    (influencers : list string) (m : Machine) : list Tweet * Machine :=
  let r := check_influencer_run clients influencers m in
  (new_posts r, run_machine r).

(** *** MediumMonitor *)

Definition feed_url : string := "https://medium.com/feed/@" ++ MEDIUM_USERNAME.

(** [entry.get('id', entry.get('link', ''))]. *)
Definition entry_id (entry : FeedEntry) : string :=
  match fe_id entry with
  | Some i => i
  | None => default "" (fe_link entry)
  end.

(** The value of the ['summary'] key of a new article:
    [entry.get('summary', '')[:200] + '...' if entry.get('summary') else '']. *)
Definition article_summary (entry : FeedEntry) : string :=
  if PyStr.truthy_opt (fe_summary entry)
  then PyStr.take 200 (default "" (fe_summary entry)) ++ "..."
  else "".

Definition article_dict (entry : FeedEntry) : Article :=
  mkArticle (default "Untitled" (fe_title entry))
    (default "" (fe_link entry))
    (article_summary entry)
    (default "" (fe_published entry)).

(** [for entry in ...: if cursor and article_id == cursor: break; append]. *)
Fixpoint collect_new_articles (cursor : option string)
    (entries : list FeedEntry) : list Article :=
  match entries with
  | [] => []
  | entry :: entries' =>
      let article_id := entry_id entry in
      if PyStr.truthy_opt cursor && bool_decide (Some article_id = cursor)
      then []
      else article_dict entry :: collect_new_articles cursor entries'
  end.

Definition check_for_new_articles (m : Machine) : list Article * Machine :=
  match http_get_feed feed_url (world m) with
  | (FeedRaised, w) => ([], with_world w m)
  | (FeedResponse status_code entries, w) =>
      let m1 := with_world w m in
      if bool_decide (status_code ≠ 200) then ([], m1)
      else
        match entries with
        | [] => ([], m1)
        | newest :: _ =>
            let new_articles :=
              collect_new_articles (last_medium_article (bot m1))
                                   (take 5 entries) in
            match new_articles with
            | _ :: _ =>
                (new_articles,
                 save (with_bot (set_last_medium_article
                                   (Some (entry_id newest))) m1))
            | [] => (new_articles, m1)
            end
        end
  end.

(** *** ManagerAssigner *)

(** The selection loop; [min_count = None] stands for [float('inf')],
    below which every count lies. *)
Fixpoint select_manager (counts : gmap string Z) (managers : list (string * Z))
    (min_count : option Z) (selected : string * Z) : string * Z :=
  match managers with
  | [] => selected
  | (name, telegram_id) :: managers' =>
      let count := count_of counts name in
      if match min_count with
         | None => true
         | Some least => bool_decide (count < least)
         end
      then select_manager counts managers' (Some count) (name, telegram_id)
      else select_manager counts managers' min_count selected
  end.

(** [assign_manager] over a pool given as the list of its items;
    [managers[0]] of an empty pool raises, which is [None] here. *)
Definition assign_manager_from (managers : list (string * Z)) (m : Machine)
    : option ((string * Z) * Machine) :=
  match managers with
  | [] => None
  | first :: _ =>
      let selected :=
        select_manager (manager_assignment_counts (bot m)) managers None first in
      let m1 := with_bot (fun b =>
                  set_manager_assignment_counts
                    (bump (manager_assignment_counts b) (fst selected)) b) m in
      Some (selected, save m1)
  end.

Definition assign_manager (m : Machine) : option ((string * Z) * Machine) :=
  assign_manager_from INFLUENCER_MANAGERS m.

(** *** Notifications and the official-account job *)

Definition nl : string := String (ascii_of_nat 10) EmptyString.

(** The two glyph prefixes of the templates, byte for byte. *)
Definition glyph_live : string :=
  string_of_list_ascii
    (map ascii_of_nat [195; 176; 197; 184; 226; 128; 157; 194; 180]%nat).
Definition glyph_post : string :=
  string_of_list_ascii
    (map ascii_of_nat [195; 176; 197; 184; 226; 128; 156; 194; 162]%nat).

Definition twitter_message (tweet : Tweet) (is_space : bool) : string :=
  let username := tw_username tweet in
  if is_space then
    glyph_live ++ " X Space is LIVE!" ++ nl ++ nl ++
    "@" ++ username ++ " started a Space:" ++ nl ++ nl ++
    tw_text tweet ++ nl ++ nl ++
    "Join: " ++ tw_link tweet ++ nl ++ nl ++
    "Please join and support the team!"
  else
    glyph_post ++ " New post from @" ++ username ++ nl ++ nl ++
    tw_text tweet ++ nl ++ nl ++
    "Link: " ++ tw_link tweet ++ nl ++ nl ++
    "Please like and repost to support!".

(** One [bot.send_message] per team member, in the order of the dict;
    a failed delivery is logged and the loop goes on. *)
Definition send_twitter_notification (tweet : Tweet) (is_space : bool)
    (m : Machine) : Machine :=
  let message := twitter_message tweet is_space in
  fold_left (fun m member => emit (Sent (snd member) message) m) TEAM_MEMBERS m.

Definition check_twitter_job (clients : list Client) (m : Machine) : Machine :=
  let '(tweets, m1) := check_for_new_tweets clients m in
  fold_left (fun m tweet =>
               let is_space := is_twitter_space tweet in
               send_twitter_notification tweet is_space m)
            tweets m1.

End Bot.

Arguments mkTryResult {World R} _ _ _ _.
Arguments tr_result {World R} _.
Arguments tr_errors {World R} _.
Arguments tr_tried {World R} _.
Arguments tr_machine {World R} _.

(** ** Vocabulary of the statements *)

(** The order in which a pool of [n] clients is visited from [start]:
    [(start + i) mod n] for [i = 0 .. n-1]. *)
Definition rotation_order (start n : Z) : list Z :=
  (fun i => (start + i) `mod` n) <$> seqZ 0 n.

(** An operation that leaves the rotation index and the usage counters
    alone, in memory and in every snapshot it saves. *)
Definition keeps_rotation {World R} (operation : @Operation World R) : Prop :=
  forall client m,
    rotation_view (bot (operation client m).2) = rotation_view (bot m) /\
    exists new : list Event,
      events (operation client m).2 = (events m ++ new)%list /\
      Forall (fun e => forall s, e = Saved s ->
                                 rotation_view s = rotation_view (bot m)) new.

(** An operation that does not assign the rotation index. *)
Definition keeps_index {World R} (operation : @Operation World R) : Prop :=
  forall client m,
    current_token_index (bot (operation client m).2) = current_token_index (bot m).

(** The process after the first [k] candidates of the rotation, from
    position [first] on, have been invoked one after the other and each of
    them has failed (rate limit or other exception); [None] when one of
    them returned.  This follows the attempts only: it stores no index,
    counts no use and saves nothing. *)
Fixpoint after_failures {World R} (operation : @Operation World R)
    (clients : list Client) (start first : Z) (k : nat) (m : @Machine World)
    : option (@Machine World) :=
  match k with
  | O => Some m
  | S k' =>
      let candidate := (start + first) `mod` Z.of_nat (length clients) in
      match operation (clients !!! Z.to_nat candidate) m with
      | (Returned _, _) => None
      | (TooManyRequests, m1) =>
          after_failures operation clients start (first + 1) k' m1
      | (Raised _, m1) =>
          after_failures operation clients start (first + 1) k' m1
      end
  end.

(** The three kinds of cursor kept in the state. *)
Definition cursor_view (b : BotState)
    : option string * option string * gmap string string :=
  (last_tweet_id b, last_medium_article b, influencer_last_tweets b).

(** The messages of one official-account notification, one per team
    member, in the order of [TEAM_MEMBERS]. *)
Definition twitter_sends (tweet : Tweet) : list Event :=
  map (fun member : string * Z =>
         Sent (snd member) (twitter_message tweet (is_twitter_space tweet)))
      TEAM_MEMBERS.

(** [n] calls of [assign_manager] in a row: the managers chosen, in
    order, and the process afterwards. *)
Fixpoint assign_repeatedly {World} (n : nat) (m : @Machine World)
    : list (string * Z) * @Machine World :=
  match n with
  | O => ([], m)
  | S n' =>
      match assign_manager m with
      | Some (selected, m1) =>
          let '(later, m2) := assign_repeatedly n' m1 in
          (selected :: later, m2)
      | None => ([], m)
      end
  end.

(** The count the ledger holds for a pool member. *)
Definition load (counts : gmap string Z) (member : string * Z) : Z :=
  count_of counts (fst member).

(** A count lies below the running minimum of [select_manager]
    ([None]: nothing seen yet, every count lies below). *)
Definition below (min_count : option Z) (count : Z) : Prop :=
  match min_count with
  | None => True
  | Some least => count < least
  end.

(** What the saved snapshot of an event holds as cursor of a tracked
    account ([None] for an event that is no save). *)
Definition saved_cursor (username : string) (e : Event) : option (option string) :=
  match e with
  | Saved snapshot => Some (influencer_last_tweets snapshot !! username)
  | Sent _ _ => None
  end.

(** ** A scripted remote side *)

(** A small concrete environment on which the definitions run: the world
    is the timeline of the account asked for, newest first; the client
    built from the token ["limited"] is rate limited, the one built from
    ["broken"] fails otherwise, every other client is served. *)
Module Demo.

Definition World : Type := list RawTweet.

(** The tweets posted after [since], newest first. *)
Fixpoint newer_than (since : option string) (timeline : list RawTweet)
    : list RawTweet :=
  match timeline with
  | [] => []
  | tweet :: older =>
      if bool_decide (Some (raw_id tweet) = since) then []
      else tweet :: newer_than since older
  end.

Definition serve {A} (client : Client) (answer : A) (w : World)
    : Outcome A * World :=
  if bool_decide (client = "limited") then (TooManyRequests, w)
  else if bool_decide (client = "broken") then (Raised "503", w)
  else (Returned answer, w).

Definition get_user (client : Client) (username : string) (w : World)
    : Outcome (option string) * World :=
  serve client (Some "42") w.

Definition get_users_tweets (client : Client) (user_id : string)
    (since_id : option string) (w : World)
    : Outcome (option (list RawTweet)) * World :=
  serve client (Some (take 5 (newer_than since_id w))) w.

Definition short_entry : FeedEntry :=
  mkFeedEntry (Some "post-1") (Some "https://medium.com/p/1")
              (Some "Launch") (Some "hi") None.

Definition get_feed (url : string) (w : World) : FeedResult * World :=
  (FeedResponse 200 [short_entry], w).

(** A process with state [b], facing timeline [w], before any event. *)
Definition boot (b : BotState) (w : World) : @Machine World :=
  mkMachine b w [].

Definition T1 : RawTweet := mkRawTweet "1001" "gm everyone" None.
Definition T2 : RawTweet :=
  mkRawTweet "1002" "Big news from @BeeOS_ArenaVS today" None.
Definition T3 : RawTweet := mkRawTweet "1003" "back to work" None.

(** A state in which the identifier of ["alice"] is cached. *)
Definition alice_known : BotState :=
  set_influencer_user_ids {["alice" := "42"]} initial_state.

(** A state whose three cursors point at the newest item of each
    source. *)
Definition caught_up : BotState :=
  set_influencer_last_tweets {["alice" := "1003"]}
    (set_last_medium_article (Some "post-1")
       (set_last_tweet_id (Some "1003") alice_known)).

End Demo.

(** ** Further string operations *)

Module PyStrMore.

(** [s.replace(old, new)] for a non-empty [old]: the occurrences of
    [old] are replaced from left to right, and the scan resumes behind
    each occurrence replaced.  [skip] counts the characters of the
    current occurrence still to be passed over. *)
Fixpoint replace_from (old new s : string) (skip : nat) : string :=
  match s with
  | EmptyString => EmptyString
  | String c s' =>
      match skip with
      | S skip' => replace_from old new s' skip'
      | O =>
          if PyStr.startswith old s
          then (new ++ replace_from old new s' (String.length old - 1))%string
          else String c (replace_from old new s' 0)
      end
  end.

Definition replace (old new s : string) : string := replace_from old new s 0.

(** [a or b or ''] on two optional strings. *)
Definition first_truthy (a b : option string) : string :=
  if PyStr.truthy_opt a then default "" a
  else if PyStr.truthy_opt b then default "" b
  else "".

(** A dict with string keys as Python keeps it: the items in insertion
    order, each key once.  [d[k] = v] replaces the value of a key that is
    present, in place, and appends a new key. *)
Fixpoint dict_set {V} (k : string) (v : V) (d : list (string * V))
    : list (string * V) :=
  match d with
  | [] => [(k, v)]
  | (k', v') :: d' =>
      if String.eqb k k' then (k', v) :: d'
      else (k', v') :: dict_set k v d'
  end.

(** [range(0, stop, step)] for a positive [step]. *)
Definition range_step (stop step : nat) : list nat :=
  (fun k => k * step)%nat <$> seq 0 ((stop + step - 1) / step)%nat.

End PyStrMore.

(** ** The remaining monitors, jobs and handlers *)

(** A channel post as the handler reads it: [str(chat.id)], [text] and
    [caption]. *)
Record ChannelPost := mkChannelPost {
  cp_chat_id : string;
  cp_text : option string;
  cp_caption : option string
}.

Section Jobs.

Context {World : Type}.
Variable api_get_user :
  Client -> string -> World -> Outcome (option string) * World.
Variable api_get_users_tweets :
  Client -> string -> option string -> World ->
  Outcome (option (list RawTweet)) * World.
(** [client.get_users(usernames=..., user_fields=['id'])]: the [data] of
    the response, each user as [(user.username, str(user.id))]. *)
Variable api_get_users :
  Client -> list string -> World ->
  Outcome (option (list (string * string))) * World.
Variable http_get_feed : string -> World -> FeedResult * World.

(** *** MultiTokenTwitterClient.get_users_by_usernames_batch *)

Definition get_users_operation (usernames : list string)
    : @Operation World (option (list (string * string))) :=
  fun client m =>
    let '(out, w) := api_get_users client (take 100 usernames) (world m) in
    (out, with_world w m).

Definition get_users_by_usernames_batch (clients : list Client)
    (usernames : list string) (m : @Machine World)
    : list (string * string) * @Machine World :=
  match usernames with
  | [] => ([], m)
  | _ :: _ =>
      let r := _try_all_clients (get_users_operation usernames) clients m in
      match tr_result r with
      | Some (Some (user :: data)) =>
          (fold_left (fun user_ids user =>
                        PyStrMore.dict_set (PyStr.lower (fst user)) (snd user) user_ids)
                     (user :: data) [],
           tr_machine r)
      | _ => ([], tr_machine r)
      end
  end.

(** *** InfluencerMonitor._cache_user_ids *)

(** [[u for u in self.influencers if u.lower() not in ids]]. *)
Definition uncached_of (ids : gmap string string) (influencers : list string)
    : list string :=
  filter (fun u => ids !! PyStr.lower u = None) influencers.

(** The batches of the loop: [uncached[i:i+100]] for [i] in
    [range(0, len(uncached), 100)]. *)
Definition cache_batches (uncached : list string) : list (list string) :=
  (fun i => take 100 (drop i uncached))
    <$> PyStrMore.range_step (length uncached) 100.

(** The body of [for i in range(0, len(uncached), 100)]; the pause
    between two batches has no counterpart here. *)
Definition cache_one_batch (clients : list Client) (m : @Machine World)
    (batch : list string) : @Machine World :=
  let '(user_ids, m1) := get_users_by_usernames_batch clients batch m in
  let m2 := with_bot (fun b =>
              set_influencer_user_ids
                (fold_left (fun ids item =>
                              <[PyStr.lower (fst item) := snd item]> ids)
                           user_ids (influencer_user_ids b)) b) m1 in
  save m2.

Definition _cache_user_ids (clients : list Client) (influencers : list string)
    (m : @Machine World) : @Machine World :=
  let uncached := uncached_of (influencer_user_ids (bot m)) influencers in
  match uncached with
  | [] => m
  | _ :: _ => fold_left (cache_one_batch clients) (cache_batches uncached) m
  end.

(** *** Notifications *)

Definition glyph_article : string :=
  string_of_list_ascii
    (map ascii_of_nat [195; 176; 197; 184; 226; 128; 156]%nat).
Definition glyph_target : string :=
  string_of_list_ascii
    (map ascii_of_nat [195; 176; 197; 184; 197; 189; 194; 175]%nat).
Definition glyph_channel : string :=
  string_of_list_ascii
    (map ascii_of_nat [195; 176; 197; 184; 226; 128; 156; 194; 163]%nat).

Definition medium_message (article : Article) : string :=
  (glyph_article ++ " New Medium article" ++ nl ++ nl ++
   "Title: " ++ ar_title article ++ nl ++ nl ++
   ar_summary article ++ nl ++ nl ++
   "Read: " ++ ar_link article ++ nl ++ nl ++
   "Please read and clap to support!")%string.

Definition send_medium_notification (article : Article) (m : @Machine World)
    : @Machine World :=
  let message := medium_message article in
  fold_left (fun m member => emit (Sent (snd member) message) m) TEAM_MEMBERS m.

Definition influencer_message (post : Tweet) : string :=
  (glyph_target ++ " Influencer post from @" ++ tw_username post ++ nl ++ nl ++
   tw_text post ++ nl ++ nl ++
   "Link: " ++ tw_link post ++ nl ++ nl ++
   "Please engage: like, repost, comment from official account.")%string.

Definition send_influencer_notification (post : Tweet) (manager_name : string)
    (manager_id : Z) (m : @Machine World) : @Machine World :=
  emit (Sent manager_id (influencer_message post)) m.

Definition channel_message (message_text : string) : string :=
  (glyph_channel ++ " New message from team channel" ++ nl ++ nl ++
   message_text ++ nl ++ nl ++
   "Please check and engage if needed.")%string.

Definition send_channel_notification (message_text : string)
    (m : @Machine World) : @Machine World :=
  let notification := channel_message message_text in
  fold_left (fun m member => emit (Sent (snd member) notification) m)
            TEAM_MEMBERS m.

(** *** Scheduled jobs *)

Definition check_medium_job (m : @Machine World) : @Machine World :=
  let '(articles, m1) := check_for_new_articles http_get_feed m in
  fold_left (fun m article => send_medium_notification article m) articles m1.

(** The loop of [check_influencers_job]; were [assign_manager] to raise
    (an empty pool), the [except] of the job would end the loop. *)
Fixpoint notify_managers (posts : list Tweet) (m : @Machine World)
    : @Machine World :=
  match posts with
  | [] => m
  | post :: posts' =>
      match assign_manager m with
      | Some ((manager_name, manager_id), m1) =>
          notify_managers posts'
            (send_influencer_notification post manager_name manager_id m1)
      | None => m
      end
  end.

Definition check_influencers_job (clients : list Client)
    (influencers : list string) (m : @Machine World) : @Machine World :=
  let '(posts, m1) :=
    check_influencer_posts api_get_user api_get_users_tweets clients influencers m in
  notify_managers posts m1.

(** *** Channel posts *)

(** [handle_channel_post], with the configured [SOURCE_CHANNEL_ID] and
    [update.channel_post] ([None] for an update that carries none). *)
Definition handle_channel_post (SOURCE_CHANNEL_ID : string)
    (channel_post : option ChannelPost) (m : @Machine World) : @Machine World :=
  match channel_post with
  | None => m
  | Some post =>
      let channel_id := cp_chat_id post in
      if bool_decide (channel_id ≠ SOURCE_CHANNEL_ID)
         && bool_decide (channel_id ≠ PyStrMore.replace "-100" "" SOURCE_CHANNEL_ID)
      then m
      else
        let message_text := PyStrMore.first_truthy (cp_text post) (cp_caption post) in
        if negb (PyStr.truthy message_text) then m
        else send_channel_notification message_text m
  end.

End Jobs.

(** ** The state file *)

Module StateFile.

(** [str(n)] for an integer: its decimal digits, with a leading [-] for
    a negative number. *)
Definition py_str (n : Z) : string := NilZero.string_of_int (Z.to_int n).

(** The document of the state file as [json.load] returns it: for each
    key its value, or [None] for a key that is absent (for the two
    cursors also: that holds [null]).  An object is a dict; the one whose
    keys [load] converts is kept with its items in order. *)
Record Doc := mkDoc {
  doc_last_tweet_id : option string;
  doc_last_medium_article : option string;
  doc_influencer_last_tweets : option (gmap string string);
  doc_influencer_user_ids : option (gmap string string);
  doc_current_token_index : option Z;
  doc_token_usage_counts : option (list (string * Z));
  doc_manager_assignment_counts : option (gmap string Z)
}.

(** What [load] finds: no file, a file that [json.load] rejects or
    that holds no object (nothing is assigned then), or a document. *)
Inductive Content :=
| Missing
| Unreadable
| Document (data : Doc).

(** The dict that [save] hands to [json.dump], as it reads back: the
    integer keys of the usage counters become their decimal strings.  The
    items of that dict are written in the order [usage_items]. *)
Definition dump_with (usage_items : list (Z * Z)) (s : BotState) : Doc :=
  mkDoc (last_tweet_id s) (last_medium_article s)
    (Some (influencer_last_tweets s)) (Some (influencer_user_ids s))
    (Some (current_token_index s))
    (Some ((fun item : Z * Z => (py_str item.1, item.2)) <$> usage_items))
    (Some (manager_assignment_counts s)).

Section Load.

(** [int(k)] on a string: the integer, or [None] where [int] raises. *)
Variable py_int : string -> option Z.

(** [{int(k): v for k, v in items}]: [None] when some [int(k)] raises. *)
Fixpoint int_keys (items : list (string * Z)) (acc : gmap Z Z)
    : option (gmap Z Z) :=
  match items with
  | [] => Some acc
  | (k, v) :: items' =>
      match py_int k with
      | Some n => int_keys items' (<[n := v]> acc)
      | None => None
      end
  end.

(** [BotState.load]: the attributes are assigned one after the other
    inside the [try]; an exception ends the assignments and is logged. *)
Definition load (file : Content) (self : BotState) : BotState :=
  match file with
  | Missing => self
  | Unreadable => self
  | Document data =>
      let s1 := set_last_tweet_id (doc_last_tweet_id data) self in
      let s2 := set_last_medium_article (doc_last_medium_article data) s1 in
      let s3 := set_influencer_last_tweets
                  (default ∅ (doc_influencer_last_tweets data)) s2 in
      let s4 := set_influencer_user_ids
                  (default ∅ (doc_influencer_user_ids data)) s3 in
      let s5 := set_current_token_index
                  (default 0 (doc_current_token_index data)) s4 in
      match int_keys (default [] (doc_token_usage_counts data)) ∅ with
      | Some counts =>
          set_manager_assignment_counts
            (default ∅ (doc_manager_assignment_counts data))
            (set_token_usage_counts counts s5)
      | None => s5
      end
  end.

(** [BotState()]: the defaults of [__init__], then [load]. *)
Definition BotState_init (file : Content) : BotState := load file initial_state.

End Load.

(** An [int] for the strings that [str] writes: a decimal numeral,
    [-] in front of a negative one. *)
Definition decimal_int (s : string) : option Z :=
  Z.of_int <$> NilZero.int_of_string s.

End StateFile.

(** ** The pool of tokens *)

(** [os.getenv(name, default)]. *)
Definition getenv (env : gmap string string) (name default : string) : string :=
  match env !! name with
  | Some value => value
  | None => default
  end.

(** The module-level code that fills [TWITTER_BEARER_TOKENS] from the
    environment [env]. *)
Definition TWITTER_BEARER_TOKENS (env : gmap string string) : list string :=
  let numbered :=
    fold_left (fun tokens i =>
                 let token :=
                   getenv env ("TWITTER_BEARER_TOKEN_"
                               ++ StateFile.py_str (Z.of_nat i))%string "" in
                 if PyStr.truthy token then (tokens ++ [token])%list else tokens)
              (seq 1 9) [] in
  match numbered with
  | _ :: _ => numbered
  | [] =>
      let single_token := getenv env "TWITTER_BEARER_TOKEN" "" in
      if PyStr.truthy single_token then [single_token] else []
  end.

(** ** The roster of tracked accounts *)

Module Roster.

(** The character class [[a-zA-Z0-9_]]. *)
Definition is_username_char (c : ascii) : bool :=
  let n := nat_of_ascii c in
  (Nat.leb 97 n && Nat.leb n 122) || (Nat.leb 65 n && Nat.leb n 90)
  || (Nat.leb 48 n && Nat.leb n 57) || Nat.eqb n 95.

(** The longest run of username characters at the head of [s], and what
    follows it: how the greedy [[a-zA-Z0-9_]+] reads [s]. *)
Fixpoint username_run (s : string) : string * string :=
  match s with
  | EmptyString => (EmptyString, EmptyString)
  | String c s' =>
      if is_username_char c
      then let '(run, rest) := username_run s' in (String c run, rest)
      else (EmptyString, s)
  end.

(** What follows the literal [p] at the head of [s], if [s] starts with
    it. *)
Fixpoint after_literal (p s : string) : option string :=
  match p, s with
  | EmptyString, _ => Some s
  | String _ _, EmptyString => None
  | String a p', String b s' =>
      if Ascii.eqb a b then after_literal p' s' else None
  end.

(** The first pattern,
    [(?:https?://)?(?:www\.)?(?:twitter\.com|x\.com)/([a-zA-Z0-9_]+)],
    matched at the head of [s]; the result is group 1.  Each optional or
    alternative part is tried in the order of the regular expression, the
    next choice only when the rest of the pattern fails after the
    previous one. *)

(** [/([a-zA-Z0-9_]+)]. *)
Definition match_path (s : string) : option string :=
  match after_literal "/" s with
  | Some rest =>
      let username := (username_run rest).1 in
      if PyStr.truthy username then Some username else None
  | None => None
  end.

(** [(?:twitter\.com|x\.com)] and the path. *)
Definition match_host (s : string) : option string :=
  match after_literal "twitter.com" s ≫= match_path with
  | Some username => Some username
  | None => after_literal "x.com" s ≫= match_path
  end.

(** [(?:www\.)?] and the rest. *)
Definition match_www (s : string) : option string :=
  match after_literal "www." s ≫= match_host with
  | Some username => Some username
  | None => match_host s
  end.

(** [(?:https?://)?] and the rest. *)
Definition match_profile (s : string) : option string :=
  let with_scheme :=
    match after_literal "http" s with
    | Some rest =>
        match (after_literal "s" rest ≫= after_literal "://") ≫= match_www with
        | Some username => Some username
        | None => after_literal "://" rest ≫= match_www
        end
    | None => None
    end in
  match with_scheme with
  | Some username => Some username
  | None => match_www s
  end.

(** [re.search] with the first pattern: the match at the leftmost
    position of [s] where the pattern matches. *)
Fixpoint search_profile (s : string) : option string :=
  match match_profile s with
  | Some username => Some username
  | None =>
      match s with
      | EmptyString => None
      | String _ s' => search_profile s'
      end
  end.

Definition newline : string := String (ascii_of_nat 10) EmptyString.

(** [re.search] with the second pattern, [^([a-zA-Z0-9_]+)$]: the whole
    of [s] is a run of username characters, or such a run and one final
    newline (before which [$] matches too). *)
Definition search_bare (s : string) : option string :=
  let '(run, rest) := username_run s in
  if PyStr.truthy run
     && (bool_decide (rest = EmptyString) || bool_decide (rest = newline))
  then Some run else None.

Definition reserved : list string :=
  ["i"; "intent"; "share"; "search"; "hashtag"].

Definition is_reserved (username : string) : bool :=
  bool_decide (PyStr.lower username ∈ reserved).

Section Extract.

(** [str.strip()], taken as given. *)
Variable strip : string -> string.

(** [InfluencerMonitor._extract_username]. *)
Definition _extract_username (value : string) : option string :=
  let value := strip value in
  if PyStr.startswith "@" value
  then Some (match value with
             | EmptyString => EmptyString
             | String _ tail => tail
             end)
  else
    match search_profile value with
    | Some username =>
        if negb (is_reserved username) then Some username
        else
          match search_bare value with
          | Some username' =>
              if negb (is_reserved username') then Some username' else None
          | None => None
          end
    | None =>
        match search_bare value with
        | Some username' =>
            if negb (is_reserved username') then Some username' else None
        | None => None
        end
    end.

(** The loop of [load_influencers_from_sheets] over the first column:
    the header is skipped, empty cells and cells without a username are
    left out, the usernames are lowercased. *)
Definition roster_usernames (values : list string) : list string :=
  omap (fun value =>
          if PyStr.truthy value
          then match _extract_username value with
               | Some username =>
                   if PyStr.truthy username then Some (PyStr.lower username)
                   else None
               | None => None
               end
          else None)
       (drop 1 values).

End Extract.

(** A [strip] for strings without characters beyond ASCII: the
    whitespace characters are the codes 9 to 13 and 28 to 32. *)
Definition is_space (c : ascii) : bool :=
  let n := nat_of_ascii c in
  (Nat.leb 9 n && Nat.leb n 13) || (Nat.leb 28 n && Nat.leb n 32).

Fixpoint lstrip (s : string) : string :=
  match s with
  | EmptyString => EmptyString
  | String c s' => if is_space c then lstrip s' else s
  end.

Fixpoint rstrip (s : string) : string :=
  match s with
  | EmptyString => EmptyString
  | String c s' =>
      match rstrip s' with
      | EmptyString => if is_space c then EmptyString else String c EmptyString
      | kept => String c kept
      end
  end.

Definition strip_ascii (s : string) : string := rstrip (lstrip s).

End Roster.

(** [InfluencerMonitor.load_influencers_from_sheets]: [sheet] is the
    first column read from the spreadsheet, or [None] when the
    credentials are not configured or reading the sheet raises; the result
    is the new [self.influencers] and the process. *)
Definition load_influencers_from_sheets {World} (strip : string -> string)
    (api_get_users : Client -> list string -> World ->
                     Outcome (option (list (string * string))) * World)
    (clients : list Client) (sheet : option (list string))
    (influencers : list string) (m : @Machine World)
    : list string * @Machine World :=
  match sheet with
  | None => (influencers, m)
  | Some values =>
      let influencers' := Roster.roster_usernames strip values in
      (influencers', _cache_user_ids api_get_users clients influencers' m)
  end.

(** ** Vocabulary of the further statements *)

(** The messages of one feed notification, one per team member, in the
    order of [TEAM_MEMBERS]. *)
Definition medium_sends (article : Article) : list Event :=
  map (fun member : string * Z => Sent (snd member) (medium_message article))
      TEAM_MEMBERS.

(** The messages of one forwarded channel post. *)
Definition channel_sends (message_text : string) : list Event :=
  map (fun member : string * Z => Sent (snd member) (channel_message message_text))
      TEAM_MEMBERS.

(** A ledger is balanced on a pool when no two members of the pool are
    more than one assignment apart. *)
Definition balanced (counts : gmap string Z) (pool : list (string * Z)) : Prop :=
  forall p q, p ∈ pool -> q ∈ pool -> load counts p <= load counts q + 1.

(** The two events of one assignment: the save of the ledger, then the
    message to the manager chosen. *)
Definition assignment_events (post : Tweet) (manager : string * Z)
    (snapshot : BotState) : list Event :=
  [Saved snapshot; Sent (snd manager) (influencer_message post)].

(** What batch caching may do to the state: cache entries are added
    or rewritten under lowercase keys, never removed, and the cursors and
    the ledger stay. *)
Definition cache_extends (b b' : BotState) : Prop :=
  (forall k, is_Some (influencer_user_ids b !! k) ->
             is_Some (influencer_user_ids b' !! k)) /\
  (forall k, influencer_user_ids b' !! k <> influencer_user_ids b !! k ->
             PyStr.lower k = k) /\
  cursor_view b' = cursor_view b /\
  manager_assignment_counts b' = manager_assignment_counts b.

(** Every character of [s] is a username character. *)
Fixpoint all_username_chars (s : string) : bool :=
  match s with
  | EmptyString => true
  | String c s' => Roster.is_username_char c && all_username_chars s'
  end.

(** [s] does not go on with a username character. *)
Definition ends_username (s : string) : bool :=
  match s with
  | EmptyString => true
  | String c _ => negb (Roster.is_username_char c)
  end.

(** ** Further scripted inputs *)

Module Scenario.

(** A lookup service that is down. *)
Definition lookup_down (client : Client) (username : string) (w : Demo.World)
    : Outcome (option string) * Demo.World :=
  (Raised "lookup down", w).

Definition entry (name : string) : FeedEntry :=
  mkFeedEntry (Some name) (Some ("https://medium.com/p/" ++ name)%string)
              (Some name) (Some "text") None.

(** A feed that answers every request with the same three entries. *)
Definition feed (url : string) (w : Demo.World) : FeedResult * Demo.World :=
  (FeedResponse 200 [entry "e3"; entry "e2"; entry "e1"], w).

(** A feed whose only entry has neither [id] nor [link]. *)
Definition anonymous_entry : FeedEntry :=
  mkFeedEntry None None (Some "untitled note") None None.

Definition anonymous_feed (url : string) (w : Demo.World)
    : FeedResult * Demo.World :=
  (FeedResponse 200 [anonymous_entry], w).

(** A state with every field set. *)
Definition saved_state : BotState :=
  mkBotState (Some "1003") (Some "e3") {["alice" := "1003"]}
             {["alice" := "42"]} 1 {[0 := 4; 1 := 7]} {["Igor" := 2]}.

(** A balanced ledger in which Igor is one assignment ahead. *)
Definition igor_ahead : @Machine Demo.World :=
  Demo.boot (set_manager_assignment_counts
               {["Igor" := 2; "Roman" := 1; "Dyma" := 1]} initial_state) [].

Definition igor_ahead_assigned : @Machine Demo.World :=
  save (with_bot (fun b =>
          set_manager_assignment_counts
            (bump (manager_assignment_counts b) "Roman") b) igor_ahead).

(** A state file whose second usage-counter key is no number. *)
Definition damaged_doc : StateFile.Doc :=
  StateFile.mkDoc (Some "1003") None None (Some {["alice" := "42"]}) (Some 1)
                  (Some [("0", 4); ("one", 7)]) (Some {["Igor" := 2]}).

End Scenario.

(** * Properties *)

(** ** Strings *)

Module PyStrFacts.
Import PyStr.

Lemma append_cons (x : ascii) (a b : string) :
  String x a ++ b = String x (a ++ b).
Proof. reflexivity. Qed.

Lemma append_nil (b : string) : "" ++ b = b.
Proof. reflexivity. Qed.

Lemma append_assoc (a b c : string) : (a ++ b) ++ c = a ++ (b ++ c).
Proof.
  induction a as [|x a IH]; [reflexivity|].
  rewrite !append_cons. now rewrite IH.
Qed.

Lemma startswith_iff (p s : string) :
  startswith p s = true <-> exists t, s = p ++ t.
Proof.
  revert s. induction p as [|a p IH]; intros s; simpl.
  - split; [intros _; now exists s | reflexivity].
  - destruct s as [|b s].
    + split; [discriminate | intros [t Ht]; discriminate].
    + destruct (Ascii.eqb_spec a b) as [->|Hne].
      * rewrite IH. split; intros [t Ht]; exists t;
          rewrite append_cons in *; congruence.
      * split; [discriminate |].
        intros [t Ht]. rewrite append_cons in Ht. congruence.
Qed.

Lemma startswith_app (needle b : string) :
  startswith needle (needle ++ b) = true.
Proof. apply startswith_iff. now exists b. Qed.

Lemma contains_iff (needle hay : string) :
  contains needle hay = true <-> exists a b, hay = a ++ needle ++ b.
Proof.
  induction hay as [|c hay IH]; simpl.
  - destruct (startswith needle "") eqn:E.
    + apply startswith_iff in E as [t Ht].
      split; [intros _; exists "", t; exact Ht | reflexivity].
    + split; [discriminate |].
      intros ([|x a] & b & Hab); [|discriminate].
      rewrite append_nil in Hab. rewrite Hab, startswith_app in E.
      discriminate.
  - destruct (startswith needle (String c hay)) eqn:E.
    + apply startswith_iff in E as [t Ht].
      split; [intros _; exists "", t; exact Ht | reflexivity].
    + rewrite IH. split.
      * intros (a & b & ->). now exists (String c a), b.
      * intros ([|x a] & b & Hab).
        -- rewrite append_nil in Hab. rewrite Hab, startswith_app in E.
           discriminate.
        -- rewrite append_cons in Hab. exists a, b. congruence.
Qed.

(** A string that contains [b] contains whatever [b] contains. *)
Lemma contains_trans (a b c : string) :
  contains a b = true -> contains b c = true -> contains a c = true.
Proof.
  rewrite !contains_iff. intros (x & y & ->) (u & v & ->).
  exists (u ++ x), (y ++ v). now rewrite !append_assoc.
Qed.

Lemma length_take (n : nat) (s : string) :
  (String.length (take n s) <= n)%nat.
Proof.
  unfold take. revert s. induction n as [|n IH]; intros [|c s]; simpl; try lia.
  specialize (IH s). lia.
Qed.



End PyStrFacts.

(** ** The rotation loop *)

Local Open Scope list_scope.

Section RotationFacts.
Context {World R : Type}.
Variable operation : @Operation World R.
Variable clients : list Client.
Variable start_index : Z.

Local Abbreviation candidate i :=
  ((start_index + i) `mod` Z.of_nat (length clients)).

(** The indices tried are those of a prefix of the range, in order,
    after the ones tried before. *)
Lemma try_clients_tried range errors tried m :
  exists k : nat,
    tr_tried (try_clients operation clients start_index range errors tried m)
    = tried ++ ((fun i => candidate i) <$> take k range).
Proof.
  revert errors tried m.
  induction range as [|i range IH]; intros errors tried m; simpl.
  - exists 0%nat. now rewrite app_nil_r.
  - destruct (operation _ m) as [[result| |msg] m1]; simpl.
    + now exists 1%nat.
    + edestruct IH as [k Hk].
      exists (S k). rewrite Hk, <- app_assoc. reflexivity.
    + edestruct IH as [k Hk].
      exists (S k). rewrite Hk, <- app_assoc. reflexivity.
Qed.

(** When no client succeeds the whole range has been tried. *)
Lemma try_clients_none_tried range errors tried m :
  tr_result (try_clients operation clients start_index range errors tried m) = None ->
  tr_tried (try_clients operation clients start_index range errors tried m)
  = tried ++ ((fun i => candidate i) <$> range).
Proof.
  revert errors tried m.
  induction range as [|i range IH]; intros errors tried m; simpl.
  - now rewrite app_nil_r.
  - destruct (operation _ m) as [[result| |msg] m1]; simpl.
    + discriminate.
    + intros H. rewrite (IH _ _ _ H), <- app_assoc. reflexivity.
    + intros H. rewrite (IH _ _ _ H), <- app_assoc. reflexivity.
Qed.

(** On success some invocation of the operation returned: its client
    index is the last one tried and the one stored, its counter has
    been incremented, and the state has been saved last. *)
Lemma try_clients_some range errors tried m result :
  tr_result (try_clients operation clients start_index range errors tried m)
    = Some result ->
  exists (i c : Z) (m0 m1 : @Machine World),
    let r := try_clients operation clients start_index range errors tried m in
    i ∈ range /\ c = candidate i /\
    operation (clients !!! Z.to_nat c) m0 = (Returned result, m1) /\
    last (tr_tried r) = Some c /\
    current_token_index (bot (tr_machine r)) = c /\
    token_usage_counts (bot (tr_machine r))
      = bump (token_usage_counts (bot m1)) c /\
    last (events (tr_machine r)) = Some (Saved (bot (tr_machine r))).
Proof.
  revert errors tried m.
  induction range as [|i range IH]; intros errors tried m; simpl.
  - discriminate.
  - destruct (operation _ m) as [[res| |msg] m1] eqn:E; simpl.
    + intros [= ->]. exists i, (candidate i), m, m1. simpl.
      split; [left|]. split; [reflexivity|]. split; [exact E|].
      split; [apply last_snoc|]. split; [reflexivity|].
      split; [reflexivity|]. apply last_snoc.
    + intros H. destruct (IH _ _ _ H) as (j & c & m0 & m' & Hj & Hrest).
      exists j, c, m0, m'. split; [now right | exact Hrest].
    + intros H. destruct (IH _ _ _ H) as (j & c & m0 & m' & Hj & Hrest).
      exists j, c, m0, m'. split; [now right | exact Hrest].
Qed.

(** One entry of [errors] per failed attempt: the list is full exactly
    when no client succeeded. *)
Lemma try_clients_errors range errors tried m :
  let r := try_clients operation clients start_index range errors tried m in
  (tr_result r = None /\
   length (tr_errors r) = (length errors + length range)%nat) \/
  (is_Some (tr_result r) /\
   (length (tr_errors r) < length errors + length range)%nat).
Proof.
  revert errors tried m.
  induction range as [|i range IH]; intros errors tried m; simpl.
  - left. split; [reflexivity | lia].
  - destruct (operation _ m) as [[res| |msg] m1]; simpl.
    + right. split; [eauto | lia].
    + edestruct IH as [[H1 H2]|[H1 H2]]; [left|right];
        (split; [exact H1 | rewrite length_app in H2; simpl in H2; lia]).
    + edestruct IH as [[H1 H2]|[H1 H2]]; [left|right];
        (split; [exact H1 | rewrite length_app in H2; simpl in H2; lia]).
Qed.

(** A call in which every client fails changes what the operation
    itself changes, and nothing else. *)
Lemma try_clients_none_frame {A} (f : @Machine World -> A) range errors tried m :
  (forall client m, f (operation client m).2 = f m) ->
  tr_result (try_clients operation clients start_index range errors tried m) = None ->
  f (tr_machine (try_clients operation clients start_index range errors tried m))
  = f m.
Proof.
  intros Hf. revert errors tried m.
  induction range as [|i range IH]; intros errors tried m; simpl.
  - reflexivity.
  - specialize (Hf (clients !!! Z.to_nat (candidate i)) m).
    destruct (operation _ m) as [[res| |msg] m1]; simpl in *.
    + discriminate.
    + intros H. now rewrite (IH _ _ _ H).
    + intros H. now rewrite (IH _ _ _ H).
Qed.

(** With an operation that keeps the rotation state, a call in which
    every client fails keeps it too, in memory and in every snapshot
    saved on the way. *)
Lemma try_clients_none_rotation range errors tried m :
  keeps_rotation operation ->
  tr_result (try_clients operation clients start_index range errors tried m) = None ->
  let r := try_clients operation clients start_index range errors tried m in
  rotation_view (bot (tr_machine r)) = rotation_view (bot m) /\
  exists new : list Event,
    events (tr_machine r) = events m ++ new /\
    Forall (fun e => forall s, e = Saved s ->
                               rotation_view s = rotation_view (bot m)) new.
Proof.
  intros Hop. revert errors tried m.
  induction range as [|i range IH]; intros errors tried m; simpl.
  - intros _. split; [reflexivity|]. exists []. now rewrite app_nil_r.
  - destruct (Hop (clients !!! Z.to_nat (candidate i)) m)
      as (Hview & new1 & Hev1 & Hnew1).
    destruct (operation _ m) as [[res| |msg] m1]; simpl in *;
      [discriminate| |];
      intros H; destruct (IH _ _ _ H) as (Hview2 & new2 & Hev2 & Hnew2);
      (split; [congruence|]); exists (new1 ++ new2);
      (split; [rewrite Hev2, Hev1, app_assoc; reflexivity|]);
      apply Forall_app; (split; [exact Hnew1|]);
      rewrite <- Hview; exact Hnew2.
Qed.

End RotationFacts.

(** Arithmetic of the candidate index. *)

Lemma candidate_bounds (start n i : Z) :
  0 < n -> 0 <= (start + i) `mod` n < n.
Proof. intros Hn. apply Z.mod_pos_bound. exact Hn. Qed.

Lemma candidate_inj (start n i j : Z) :
  0 <= i < n -> 0 <= j < n ->
  (start + i) `mod` n = (start + j) `mod` n -> i = j.
Proof.
  intros Hi Hj Heq.
  assert (Hn : n <> 0) by lia.
  pose proof (Z.div_mod (start + i) n Hn) as Di.
  pose proof (Z.div_mod (start + j) n Hn) as Dj.
  rewrite Heq in Di.
  set (q := (start + i) `div` n - (start + j) `div` n).
  assert (Hd : i - j = n * q) by (subst q; lia).
  assert (Hq : q = 0).
  { destruct (Z.lt_trichotomy q 0) as [Hlt|[Hz|Hgt]]; [|exact Hz|].
    - assert (n * q <= n * (-1)) by (apply Z.mul_le_mono_nonneg_l; lia). lia.
    - assert (n * 1 <= n * q) by (apply Z.mul_le_mono_nonneg_l; lia). lia. }
  rewrite Hq in Hd. lia.
Qed.

Lemma NoDup_rotation_order (start n : Z) : NoDup (rotation_order start n).
Proof.
  unfold rotation_order. apply NoDup_fmap_2_strong; [|apply NoDup_seqZ].
  intros i j Hi Hj. rewrite elem_of_seqZ in Hi, Hj.
  apply candidate_inj; lia.
Qed.

Lemma rotation_order_bounds (start n : Z) :
  Forall (fun c => 0 <= c < n) (rotation_order start n).
Proof.
  unfold rotation_order. apply Forall_fmap, Forall_forall.
  intros i Hi. rewrite elem_of_seqZ in Hi. simpl.
  apply candidate_bounds. lia.
Qed.

Lemma length_rotation_order (start n : Z) :
  length (rotation_order start n) = Z.to_nat n.
Proof. unfold rotation_order. now rewrite length_fmap, length_seqZ. Qed.

Lemma NoDup_take_of {A} (k : nat) (l : list A) : NoDup l -> NoDup (take k l).
Proof.
  intros H. rewrite <- (take_drop k l) in H.
  apply NoDup_app in H. tauto.
Qed.

(** The indices tried by one call: a prefix of the rotation order. *)
Lemma try_all_clients_tried {World R} (operation : @Operation World R)
    (clients : list Client) (m : Machine) :
  exists k : nat,
    tr_tried (_try_all_clients operation clients m)
    = take k (rotation_order (current_token_index (bot m))
                             (Z.of_nat (length clients))).
Proof.
  unfold _try_all_clients. destruct clients as [|client clients'].
  - exists 0%nat. reflexivity.
  - destruct (try_clients_tried operation (client :: clients')
                (current_token_index (bot m))
                (seqZ 0 (Z.of_nat (length (client :: clients')))) [] [] m)
      as [k Hk].
    exists k. rewrite Hk. simpl app. unfold rotation_order.
    now rewrite fmap_take.
Qed.

(** C1: one call of [_try_all_clients] invokes the operation on the
    clients [(start + i) mod N], [i = 0, 1, ...], in that order, where
    [start] is the stored rotation index: the indices tried form a prefix
    of that order, none occurs twice, there are at most [N] of them, and
    each lies in [0, N).  This holds for every pool and whatever each
    invocation does (return, rate limit, other failure). *)
Theorem try_all_clients_each_once {World R} (operation : @Operation World R)
    (clients : list Client) (m : Machine) :
  let N := Z.of_nat (length clients) in
  let r := _try_all_clients operation clients m in
  tr_tried r `prefix_of` rotation_order (current_token_index (bot m)) N /\
  NoDup (tr_tried r) /\
  (length (tr_tried r) <= length clients)%nat /\
  Forall (fun c => 0 <= c < N) (tr_tried r).
Proof.
  intros N r. subst r.
  destruct (try_all_clients_tried operation clients m) as [k ->].
  fold N. split; [apply prefix_take|].
  split; [apply NoDup_take_of, NoDup_rotation_order|].
  split.
  - rewrite length_take, length_rotation_order. subst N. lia.
  - apply Forall_take, rotation_order_bounds.
Qed.


(** ** The operation of [get_user_tweets] *)

Lemma keeps_rotation_index {World R} (operation : @Operation World R) :
  keeps_rotation operation -> keeps_index operation.
Proof.
  intros H client m. destruct (H client m) as [Hview _].
  unfold rotation_view in Hview. congruence.
Qed.

Lemma get_user_tweets_operation_keeps_rotation {World}
    (api_get_user : Client -> string -> World -> Outcome (option string) * World)
    (api_get_users_tweets : Client -> string -> option string -> World ->
                            Outcome (option (list RawTweet)) * World)
    (username : string) (since_id : option string) :
  keeps_rotation
    (get_user_tweets_operation api_get_user api_get_users_tweets username since_id).
Proof.
  intros client m. unfold get_user_tweets_operation.
  destruct (PyStr.truthy_opt (influencer_user_ids (bot m) !! username)).
  - destruct (api_get_users_tweets _ _ _ _) as [out w]. simpl.
    split; [reflexivity|]. exists []. rewrite app_nil_r. now split.
  - destruct (api_get_user client username (world m)) as [[[uid|]| |msg] w]; simpl.
    + destruct (api_get_users_tweets _ _ _ _) as [out w']. simpl.
      split; [reflexivity|]. eexists [_]. split; [reflexivity|].
      constructor; [|constructor]. intros s [= <-]. reflexivity.
    + split; [reflexivity|]. exists []. rewrite app_nil_r. now split.
    + split; [reflexivity|]. exists []. rewrite app_nil_r. now split.
    + split; [reflexivity|]. exists []. rewrite app_nil_r. now split.
Qed.

(** ** One call of the pool *)

(** The first client tried is the one at the stored index. *)
Lemma try_all_clients_head {World R} (operation : @Operation World R)
    (client : Client) (clients : list Client) (m : Machine) :
  head (tr_tried (_try_all_clients operation (client :: clients) m))
  = Some (current_token_index (bot m)
          `mod` Z.of_nat (length (client :: clients))).
Proof.
  unfold _try_all_clients.
  rewrite seqZ_cons by (simpl length; lia).
  cbn [try_clients]. rewrite Z.add_0_r.
  destruct (operation _ m) as [[res| |msg] m1]; simpl app.
  - reflexivity.
  - edestruct (try_clients_tried operation (client :: clients)) as [k ->].
    reflexivity.
  - edestruct (try_clients_tried operation (client :: clients)) as [k ->].
    reflexivity.
Qed.

(** No client succeeded exactly when each of them left an error. *)
Lemma try_all_clients_all_failed {World R} (operation : @Operation World R)
    (clients : list Client) (m : Machine) :
  length (tr_errors (_try_all_clients operation clients m)) = length clients ->
  tr_result (_try_all_clients operation clients m) = None.
Proof.
  unfold _try_all_clients. destruct clients as [|client clients']; [reflexivity|].
  intros Hlen.
  destruct (try_clients_errors operation (client :: clients')
              (current_token_index (bot m))
              (seqZ 0 (Z.of_nat (length (client :: clients')))) [] [] m)
    as [[H _]|[_ H]]; [exact H|].
  rewrite length_seqZ, Nat2Z.id in H. simpl in H, Hlen. lia.
Qed.

(** The loop against the attempts themselves: when the candidates
    before position [first + k] fail one after the other and the one at
    that position returns, the loop returns its result and stores its
    index. *)
Lemma try_clients_first_success {World R} (operation : @Operation World R)
    (clients : list Client) (start : Z) (k : nat) :
  forall (first len : Z) errors tried (m mk m' : @Machine World) (result : R),
    Z.of_nat k < len ->
    after_failures operation clients start first k m = Some mk ->
    operation (clients !!! Z.to_nat ((start + (first + Z.of_nat k))
                                      `mod` Z.of_nat (length clients))) mk
    = (Returned result, m') ->
    let r := try_clients operation clients start (seqZ first len) errors tried m in
    tr_result r = Some result /\
    current_token_index (bot (tr_machine r))
    = (start + (first + Z.of_nat k)) `mod` Z.of_nat (length clients).
Proof.
  induction k as [|k IH]; intros first len errors tried m mk m' result Hlen Hrun Hret.
  - rewrite seqZ_cons by lia. cbn [after_failures] in Hrun.
    injection Hrun as <-. cbn [try_clients].
    replace (first + Z.of_nat 0) with first in Hret |- * by lia.
    rewrite Hret. cbn. now split.
  - rewrite seqZ_cons by lia. cbn [after_failures] in Hrun. cbn [try_clients].
    replace (first + Z.of_nat (S k)) with (first + 1 + Z.of_nat k) in Hret |- *
      by lia.
    destruct (operation _ m) as [[res| |msg] m1]; [discriminate| |];
      replace (Z.succ first) with (first + 1) by lia;
      eapply IH; try eassumption; lia.
Qed.

(** When every candidate fails, the loop returns nothing and leaves the
    process as the attempts left it. *)
Lemma try_clients_all_failures {World R} (operation : @Operation World R)
    (clients : list Client) (start : Z) (n : nat) :
  forall (first : Z) errors tried (m mN : @Machine World),
    after_failures operation clients start first n m = Some mN ->
    let r := try_clients operation clients start (seqZ first (Z.of_nat n))
               errors tried m in
    tr_result r = None /\ tr_machine r = mN.
Proof.
  induction n as [|n IH]; intros first errors tried m mN Hrun.
  - cbn [after_failures] in Hrun. injection Hrun as <-. now split.
  - rewrite seqZ_cons by lia. cbn [after_failures] in Hrun. cbn [try_clients].
    replace (Z.pred (Z.of_nat (S n))) with (Z.of_nat n) by lia.
    destruct (operation _ m) as [[res| |msg] m1]; [discriminate| |];
      replace (Z.succ first) with (first + 1) by lia;
      now apply IH.
Qed.

(** C2: sticky-success rotation.  If, in a call, the candidates at the
    first [k] positions of the rotation fail one after the other and the
    candidate at position [k] returns, the call returns its result, the
    stored rotation index afterwards is the index [(start + k) mod N] of
    that candidate, and the next call on the pool starts with that very
    client, not with the next one.  If all [N] candidates fail, the call
    returns nothing, adds nothing to what the attempts did to the process,
    and the stored rotation index is the one from before the call.  Said
    from the result of the call: a result that is returned was returned by
    some invocation, whose client is the last one tried and the one
    stored; and when every client left its entry in [errors], the index is
    unchanged.  The operation is assumed not to assign the index
    itself. *)
Theorem sticky_success_rotation {World R} (operation : @Operation World R)
    (clients : list Client) (m : Machine) :
  keeps_index operation ->
  let r := _try_all_clients operation clients m in
  let start := current_token_index (bot m) in
  let N := Z.of_nat (length clients) in
  (forall (k : nat) (mk m' : @Machine World) (result : R),
     (k < length clients)%nat ->
     after_failures operation clients start 0 k m = Some mk ->
     operation (clients !!! Z.to_nat ((start + Z.of_nat k) `mod` N)) mk
     = (Returned result, m') ->
     tr_result r = Some result /\
     current_token_index (bot (tr_machine r)) = (start + Z.of_nat k) `mod` N /\
     forall (operation' : @Operation World R),
       head (tr_tried (_try_all_clients operation' clients (tr_machine r)))
       = Some ((start + Z.of_nat k) `mod` N)) /\
  (forall mN : @Machine World,
     after_failures operation clients start 0 (length clients) m = Some mN ->
     tr_result r = None /\ tr_machine r = mN /\
     current_token_index (bot (tr_machine r)) = start) /\
  (forall result, tr_result r = Some result ->
     exists (c : Z) (m0 m1 : @Machine World),
       operation (clients !!! Z.to_nat c) m0 = (Returned result, m1) /\
       last (tr_tried r) = Some c /\
       current_token_index (bot (tr_machine r)) = c /\
       forall (operation' : @Operation World R),
         head (tr_tried (_try_all_clients operation' clients (tr_machine r)))
         = Some c) /\
  (length (tr_errors r) = length clients ->
     current_token_index (bot (tr_machine r)) = current_token_index (bot m)).
Proof.
  intros Hop r start N.
  assert (Hnext : forall (client : Client) (clients' : list Client) (c : Z)
                         (after : @Machine World)
                         (operation' : @Operation World R),
             current_token_index (bot after) = c ->
             0 <= c < Z.of_nat (length (client :: clients')) ->
             head (tr_tried (_try_all_clients operation' (client :: clients') after))
             = Some c).
  { intros client clients' c after operation' Hidx Hc.
    rewrite try_all_clients_head, Hidx. f_equal. now apply Z.mod_small. }
  assert (Hunchanged : tr_result r = None ->
            current_token_index (bot (tr_machine r)) = current_token_index (bot m)).
  { intros Hnone. subst r. unfold _try_all_clients in Hnone |- *.
    destruct clients as [|client clients']; [reflexivity|].
    apply (try_clients_none_frame operation (client :: clients') _
             (fun m => current_token_index (bot m)));
      [exact Hop | exact Hnone]. }
  split; [|split; [|split]].
  - intros k mk m' result Hk Hrun Hret. subst r start N.
    unfold _try_all_clients.
    destruct clients as [|client clients']; [simpl in Hk; lia|].
    destruct (try_clients_first_success operation (client :: clients')
                (current_token_index (bot m)) k 0
                (Z.of_nat (length (client :: clients'))) [] [] m mk m' result)
      as [Hres Hidx]; [lia | exact Hrun | exact Hret |].
    cbv zeta in Hres, Hidx. rewrite Z.add_0_l in Hidx.
    split; [exact Hres|]. split; [exact Hidx|].
    intros operation'.
    pose proof (Hnext client clients' _ _ operation' Hidx) as Hhead.
    unfold _try_all_clients in Hhead. apply Hhead.
    apply candidate_bounds. simpl length. lia.
  - intros mN Hrun.
    assert (Hboth : tr_result r = None /\ tr_machine r = mN).
    { subst r start. unfold _try_all_clients.
      destruct clients as [|client clients'].
      - cbn [length after_failures] in Hrun. injection Hrun as <-. now split.
      - apply (try_clients_all_failures operation (client :: clients')
                 (current_token_index (bot m)) (length (client :: clients'))
                 0 [] [] m mN Hrun). }
    destruct Hboth as [Hnone HmN].
    split; [exact Hnone|]. split; [exact HmN|]. now apply Hunchanged.
  - intros result Hres. subst r. unfold _try_all_clients in Hres |- *.
    destruct clients as [|client clients']; [discriminate|].
    destruct (try_clients_some _ _ _ _ _ _ _ _ Hres)
      as (i & c & m0 & m1 & Hi & Hc & Hret & Hlast & Hidx & _).
    exists c, m0, m1. split; [exact Hret|]. split; [exact Hlast|].
    split; [exact Hidx|]. intros operation'.
    pose proof (Hnext client clients' c _ operation' Hidx) as Hhead.
    unfold _try_all_clients in Hhead. apply Hhead.
    rewrite Hc. apply candidate_bounds. simpl length. lia.
  - intros Hlen. apply Hunchanged.
    apply (try_all_clients_all_failed operation clients m Hlen).
Qed.

(** C3: a call in which every client fails returns no result (the value
    [None], no exception leaves the loop), and the rotation index and
    every usage counter hold their prior values, in memory and in each
    snapshot saved during the call.  The operation is assumed to keep the
    rotation state itself, as the one of [get_user_tweets] does. *)
Theorem failed_call_keeps_rotation_state {World R}
    (operation : @Operation World R) (clients : list Client) (m : Machine) :
  keeps_rotation operation ->
  let r := _try_all_clients operation clients m in
  length (tr_errors r) = length clients ->
  tr_result r = None /\
  current_token_index (bot (tr_machine r)) = current_token_index (bot m) /\
  token_usage_counts (bot (tr_machine r)) = token_usage_counts (bot m) /\
  exists new : list Event,
    events (tr_machine r) = events m ++ new /\
    Forall (fun e => forall s, e = Saved s ->
              current_token_index s = current_token_index (bot m) /\
              token_usage_counts s = token_usage_counts (bot m)) new.
Proof.
  intros Hop r Hlen. subst r.
  pose proof (try_all_clients_all_failed operation clients m Hlen) as Hnone.
  split; [exact Hnone|].
  unfold _try_all_clients in Hnone |- *.
  destruct clients as [|client clients'].
  - split; [reflexivity|]. split; [reflexivity|].
    exists []. rewrite app_nil_r. now split.
  - destruct (try_clients_none_rotation operation (client :: clients') _ _ _ _ m
                Hop Hnone) as (Hview & new & Hev & Hnew).
    unfold rotation_view in Hview. injection Hview as Hidx Hcnt.
    split; [exact Hidx|]. split; [exact Hcnt|].
    exists new. split; [exact Hev|].
    eapply Forall_impl; [exact Hnew|].
    intros e He s Hs. specialize (He s Hs).
    unfold rotation_view in He. injection He as H1 H2. now split.
Qed.

(** ** What a pool call leaves untouched *)

Section PoolFrame.
Context {World R : Type}.
Variable operation : @Operation World R.

(** A part of the state that neither the operation nor the rotation
    bookkeeping writes is the same after the call. *)
Lemma try_clients_frame {A} (f : BotState -> A) clients start range errors tried m :
  (forall client m, f (bot (operation client m).2) = f (bot m)) ->
  (forall v b, f (set_current_token_index v b) = f b) ->
  (forall v b, f (set_token_usage_counts v b) = f b) ->
  f (bot (tr_machine (try_clients operation clients start range errors tried m)))
  = f (bot m).
Proof.
  intros Hop Hidx Hcnt. revert errors tried m.
  induction range as [|i range IH]; intros errors tried m; simpl.
  - reflexivity.
  - specialize (Hop (clients !!! Z.to_nat ((start + i) `mod` Z.of_nat (length clients))) m).
    destruct (operation _ m) as [[res| |msg] m1]; simpl in *.
    + now rewrite Hcnt, Hidx.
    + now rewrite IH.
    + now rewrite IH.
Qed.

Lemma try_all_clients_frame {A} (f : BotState -> A) clients m :
  (forall client m, f (bot (operation client m).2) = f (bot m)) ->
  (forall v b, f (set_current_token_index v b) = f b) ->
  (forall v b, f (set_token_usage_counts v b) = f b) ->
  f (bot (tr_machine (_try_all_clients operation clients m))) = f (bot m).
Proof.
  intros Hop Hidx Hcnt. unfold _try_all_clients.
  destruct clients as [|client clients']; [reflexivity|].
  now apply try_clients_frame.
Qed.

(** The events of a call are those of the operation and saves. *)
Lemma try_clients_events (P : Event -> Prop) clients start range errors tried m :
  (forall client m, exists new : list Event,
      events (operation client m).2 = events m ++ new /\ Forall P new) ->
  (forall s, P (Saved s)) ->
  exists new : list Event,
    events (tr_machine (try_clients operation clients start range errors tried m))
    = events m ++ new /\ Forall P new.
Proof.
  intros Hop Hsave. revert errors tried m.
  induction range as [|i range IH]; intros errors tried m; simpl.
  - exists []. now rewrite app_nil_r.
  - destruct (Hop (clients !!! Z.to_nat ((start + i) `mod` Z.of_nat (length clients))) m)
      as (new1 & Hev1 & Hnew1).
    destruct (operation _ m) as [[res| |msg] m1]; simpl in *.
    + eexists (new1 ++ [_]). rewrite Hev1, app_assoc. split; [reflexivity|].
      apply Forall_app. split; [exact Hnew1|]. constructor; [apply Hsave|constructor].
    + edestruct IH as (new2 & Hev2 & Hnew2). exists (new1 ++ new2).
      rewrite Hev2, Hev1, app_assoc. split; [reflexivity|].
      apply Forall_app. now split.
    + edestruct IH as (new2 & Hev2 & Hnew2). exists (new1 ++ new2).
      rewrite Hev2, Hev1, app_assoc. split; [reflexivity|].
      apply Forall_app. now split.
Qed.

Lemma try_all_clients_events (P : Event -> Prop) clients m :
  (forall client m, exists new : list Event,
      events (operation client m).2 = events m ++ new /\ Forall P new) ->
  (forall s, P (Saved s)) ->
  exists new : list Event,
    events (tr_machine (_try_all_clients operation clients m))
    = events m ++ new /\ Forall P new.
Proof.
  intros Hop Hsave. unfold _try_all_clients.
  destruct clients as [|client clients'].
  - exists []. now rewrite app_nil_r.
  - now apply try_clients_events.
Qed.

End PoolFrame.

(** ** Fetching the tweets of one account *)

Section FetchFacts.
Context {World : Type}.
Variable api_get_user :
  Client -> string -> World -> Outcome (option string) * World.
Variable api_get_users_tweets :
  Client -> string -> option string -> World ->
  Outcome (option (list RawTweet)) * World.

Local Abbreviation fetch_operation :=
  (get_user_tweets_operation api_get_user api_get_users_tweets).
Local Abbreviation fetch := (get_user_tweets api_get_user api_get_users_tweets).

(** The operation writes the identity cache only. *)
Lemma fetch_operation_cursors username since_id client m :
  cursor_view (bot (fetch_operation username since_id client m).2)
  = cursor_view (bot m).
Proof.
  unfold get_user_tweets_operation.
  destruct (PyStr.truthy_opt (influencer_user_ids (bot m) !! username)).
  - destruct (api_get_users_tweets _ _ _ _) as [out w]. reflexivity.
  - destruct (api_get_user client username (world m)) as [[[uid|]| |msg] w];
      simpl; try reflexivity.
    destruct (api_get_users_tweets _ _ _ _) as [out w']. reflexivity.
Qed.

(** It sends nothing: its only event is the save of a resolved
    identifier. *)
Lemma fetch_operation_events username since_id client m :
  exists new : list Event,
    events (fetch_operation username since_id client m).2 = events m ++ new /\
    Forall (fun e => is_sent e = false) new.
Proof.
  unfold get_user_tweets_operation.
  destruct (PyStr.truthy_opt (influencer_user_ids (bot m) !! username)).
  - destruct (api_get_users_tweets _ _ _ _) as [out w]. simpl.
    exists []. now rewrite app_nil_r.
  - destruct (api_get_user client username (world m)) as [[[uid|]| |msg] w];
      simpl; try (exists []; now rewrite app_nil_r).
    destruct (api_get_users_tweets _ _ _ _) as [out w']. simpl.
    eexists [_]. split; [reflexivity|]. now repeat constructor.
Qed.

Lemma get_user_tweets_cursors clients username since_id m :
  cursor_view (bot (fetch clients username since_id m).2) = cursor_view (bot m).
Proof.
  unfold get_user_tweets.
  assert (H : cursor_view (bot (tr_machine
                (_try_all_clients (fetch_operation username since_id) clients m)))
              = cursor_view (bot m)).
  { apply try_all_clients_frame; [|reflexivity|reflexivity].
    intros client m'. apply fetch_operation_cursors. }
  destruct (tr_result _) as [[[|tweet data]|]|]; exact H.
Qed.

Lemma get_user_tweets_events clients username since_id m :
  exists new : list Event,
    events (fetch clients username since_id m).2 = events m ++ new /\
    Forall (fun e => is_sent e = false) new.
Proof.
  unfold get_user_tweets.
  assert (H : exists new : list Event,
             events (tr_machine
                (_try_all_clients (fetch_operation username since_id) clients m))
             = events m ++ new /\ Forall (fun e => is_sent e = false) new).
  { apply try_all_clients_events; [|reflexivity].
    intros client m'. apply fetch_operation_events. }
  destruct (tr_result _) as [[[|tweet data]|]|]; exact H.
Qed.

End FetchFacts.

(** ** The official-account monitor and its job *)

Lemma emit_all_events {World A} (g : A -> Event) (l : list A) (m : @Machine World) :
  events (fold_left (fun m x => emit (g x) m) l m) = events m ++ map g l.
Proof.
  revert m. induction l as [|x l IH]; intros m; simpl.
  - now rewrite app_nil_r.
  - rewrite IH. simpl. now rewrite <- app_assoc.
Qed.

Lemma send_twitter_notification_events {World} (tweet : Tweet) (m : @Machine World) :
  events (send_twitter_notification tweet (is_twitter_space tweet) m)
  = events m ++ twitter_sends tweet.
Proof. unfold send_twitter_notification. apply emit_all_events. Qed.

Lemma notify_all_events {World} (tweets : list Tweet) (m : @Machine World) :
  events (fold_left (fun m tweet =>
                       let is_space := is_twitter_space tweet in
                       send_twitter_notification tweet is_space m) tweets m)
  = events m ++ concat (map twitter_sends tweets).
Proof.
  revert m. induction tweets as [|tweet tweets IH]; intros m; simpl.
  - now rewrite app_nil_r.
  - rewrite IH, send_twitter_notification_events. now rewrite <- app_assoc.
Qed.

Lemma twitter_sends_are_sent (tweets : list Tweet) :
  Forall (fun e => is_sent e = true) (concat (map twitter_sends tweets)).
Proof.
  induction tweets as [|tweet tweets IH]; [constructor|].
  change (Forall (fun e => is_sent e = true)
            (twitter_sends tweet ++ concat (map twitter_sends tweets))).
  apply Forall_app. split; [|exact IH].
  unfold twitter_sends. apply Forall_forall. intros e He.
  apply list_elem_of_In, in_map_iff in He as (member & <- & _). reflexivity.
Qed.

Section OfficialAccount.
Context {World : Type}.
Variable api_get_user :
  Client -> string -> World -> Outcome (option string) * World.
Variable api_get_users_tweets :
  Client -> string -> option string -> World ->
  Outcome (option (list RawTweet)) * World.

Local Abbreviation check := (check_for_new_tweets api_get_user api_get_users_tweets).
Local Abbreviation job := (check_twitter_job api_get_user api_get_users_tweets).

(** A check that returns nothing keeps every cursor. *)
Lemma check_for_new_tweets_empty clients m :
  (check clients m).1 = [] ->
  cursor_view (bot (check clients m).2) = cursor_view (bot m).
Proof.
  unfold check_for_new_tweets.
  pose proof (get_user_tweets_cursors api_get_user api_get_users_tweets
                clients TWITTER_ACCOUNT (last_tweet_id (bot m)) m) as Hc.
  destruct (get_user_tweets _ _ _ _ _ _) as [[|first rest] m1]; simpl in *.
  - intros _. exact Hc.
  - discriminate.
Qed.

(** A check that returns items stores the identifier of the first one
    and saves the state as its last event, after events that are no
    sends. *)
Lemma check_for_new_tweets_nonempty clients m first rest :
  (check clients m).1 = first :: rest ->
  last_tweet_id (bot (check clients m).2) = Some (tw_id first) /\
  exists before : list Event,
    events (check clients m).2
    = events m ++ before ++ [Saved (bot (check clients m).2)] /\
    Forall (fun e => is_sent e = false) before.
Proof.
  unfold check_for_new_tweets.
  pose proof (get_user_tweets_events api_get_user api_get_users_tweets
                clients TWITTER_ACCOUNT (last_tweet_id (bot m)) m) as He.
  destruct (get_user_tweets _ _ _ _ _ _) as [[|first' rest'] m1]; simpl in *.
  - discriminate.
  - intros [= -> ->]. split; [reflexivity|].
    destruct He as (new & Hev & Hnew). exists new.
    rewrite Hev, <- app_assoc. now split.
Qed.

Lemma check_twitter_job_events clients m :
  events (job clients m)
  = events (check clients m).2 ++ concat (map twitter_sends (check clients m).1).
Proof.
  unfold check_twitter_job.
  destruct (check_for_new_tweets _ _ _ _) as [tweets m1]. simpl.
  apply notify_all_events.
Qed.

End OfficialAccount.

(** C6: in every run of the official-account job whose check returns a
    non-empty batch, the stored cursor is the identifier of the first
    returned item, and the events of the run are: events that are no
    sends, then the save of a state holding the advanced cursor, then the
    sends of the batch (one per team member for each item, in order).
    Hence no send of the batch precedes that save. *)
Theorem cursor_saved_before_notifications {World}
    (api_get_user : Client -> string -> World -> Outcome (option string) * World)
    (api_get_users_tweets : Client -> string -> option string -> World ->
                            Outcome (option (list RawTweet)) * World)
    (clients : list Client) (m : Machine) :
  let checked := check_for_new_tweets api_get_user api_get_users_tweets clients m in
  let after := check_twitter_job api_get_user api_get_users_tweets clients m in
  match checked.1 with
  | [] => events after = events checked.2
  | first :: _ =>
      last_tweet_id (bot checked.2) = Some (tw_id first) /\
      last_tweet_id (bot after) = Some (tw_id first) /\
      exists (before : list Event) (snapshot : BotState),
        events after
        = events m ++ before ++ [Saved snapshot]
            ++ concat (map twitter_sends checked.1) /\
        last_tweet_id snapshot = Some (tw_id first) /\
        Forall (fun e => is_sent e = false) before /\
        Forall (fun e => is_sent e = true) (concat (map twitter_sends checked.1))
  end.
Proof.
  intros checked after. subst checked after.
  rewrite check_twitter_job_events.
  destruct (check_for_new_tweets _ _ _ _).1 as [|first rest] eqn:E.
  - simpl. now rewrite app_nil_r.
  - destruct (check_for_new_tweets_nonempty _ _ _ _ _ _ E)
      as (Hcur & before & Hev & Hbefore).
    split; [exact Hcur|]. split.
    + unfold check_twitter_job.
      destruct (check_for_new_tweets _ _ _ _) as [tweets m1]. simpl in *.
      rewrite <- Hcur. clear. revert m1.
      induction tweets as [|t ts IH]; intros m1; simpl; [reflexivity|].
      rewrite IH. unfold send_twitter_notification. generalize TEAM_MEMBERS.
      intros l. revert m1. induction l as [|x l IHl]; intros m1; simpl;
        [reflexivity|]. now rewrite IHl.
    + exists before, (bot (check_for_new_tweets api_get_user api_get_users_tweets
                             clients m).2).
      split; [rewrite Hev, <- !app_assoc; reflexivity|].
      split; [exact Hcur|]. split; [exact Hbefore|].
      apply twitter_sends_are_sent.
Qed.

(** ** The tracked-accounts monitor *)

Section TrackedAccounts.
Context {World : Type}.
Variable api_get_user :
  Client -> string -> World -> Outcome (option string) * World.
Variable api_get_users_tweets :
  Client -> string -> option string -> World ->
  Outcome (option (list RawTweet)) * World.

Local Abbreviation fetch := (get_user_tweets api_get_user api_get_users_tweets).
Local Abbreviation step := (check_one_influencer api_get_user api_get_users_tweets).
Local Abbreviation loop := (influencer_loop api_get_user api_get_users_tweets).
Local Abbreviation run := (check_influencer_run api_get_user api_get_users_tweets).
Local Abbreviation mentioning :=
  (filter (fun t : Tweet => mentions_account t = true)).

(** One turn of the loop: the tweets it fetched (none for a skipped
    username), what it appends, and what it does to the cursors. *)
Lemma check_one_influencer_step clients username (r : @InfluencerRun World) :
  exists tweets : list Tweet,
    fetched (step clients username r) = fetched r ++ tweets /\
    new_posts (step clients username r) = new_posts r ++ mentioning tweets /\
    match tweets with
    | [] => cursor_view (bot (run_machine (step clients username r)))
            = cursor_view (bot (run_machine r))
    | first :: _ =>
        influencer_last_tweets (bot (run_machine (step clients username r)))
        = <[PyStr.lower username := tw_id first]>
            (influencer_last_tweets (bot (run_machine r)))
    end.
Proof.
  unfold check_one_influencer.
  destruct (negb _).
  - exists []. rewrite !app_nil_r. auto.
  - pose proof (get_user_tweets_cursors api_get_user api_get_users_tweets clients
                  username
                  (influencer_last_tweets (bot (run_machine r)) !! PyStr.lower username)
                  (run_machine r)) as Hc.
    destruct (get_user_tweets _ _ _ _ _ _) as [[|first rest] m1]; simpl in *.
    + exists []. rewrite !app_nil_r. auto.
    + exists (first :: rest). split; [reflexivity|]. split; [reflexivity|].
      unfold cursor_view in Hc. congruence.
Qed.

(** The posts collected are the fetched tweets that mention the
    account, in the order fetched. *)
Lemma influencer_loop_posts clients check_list (r : @InfluencerRun World) :
  new_posts r = mentioning (fetched r) ->
  new_posts (loop clients check_list r)
  = mentioning (fetched (loop clients check_list r)).
Proof.
  unfold influencer_loop. revert r.
  induction check_list as [|username check_list IH]; intros r Hr; simpl.
  - exact Hr.
  - apply IH.
    destruct (check_one_influencer_step clients username r)
      as (tweets & -> & -> & _).
    now rewrite filter_app, Hr.
Qed.

Lemma influencer_loop_fetched clients check_list (r : @InfluencerRun World) :
  exists tweets : list Tweet,
    fetched (loop clients check_list r) = fetched r ++ tweets.
Proof.
  unfold influencer_loop. revert r.
  induction check_list as [|username check_list IH]; intros r; simpl.
  - exists []. now rewrite app_nil_r.
  - destruct (IH (step clients username r)) as (later & ->).
    destruct (check_one_influencer_step clients username r)
      as (tweets & -> & _).
    exists (tweets ++ later). now rewrite app_assoc.
Qed.

(** A loop that fetches nothing keeps every cursor. *)
Lemma influencer_loop_idle clients check_list (r : @InfluencerRun World) :
  fetched (loop clients check_list r) = fetched r ->
  cursor_view (bot (run_machine (loop clients check_list r)))
  = cursor_view (bot (run_machine r)).
Proof.
  unfold influencer_loop. revert r.
  induction check_list as [|username check_list IH]; intros r; simpl.
  - reflexivity.
  - intros Hsame.
    destruct (influencer_loop_fetched clients check_list (step clients username r))
      as (later & Hlater).
    unfold influencer_loop in Hlater.
    destruct (check_one_influencer_step clients username r)
      as (tweets & Hstep & _ & Hcur).
    rewrite Hlater, Hstep, <- app_assoc in Hsame.
    rewrite <- (app_nil_r (fetched r)) in Hsame at 2.
    apply app_inv_head, app_eq_nil in Hsame as [-> ->].
    rewrite app_nil_r in Hstep, Hlater.
    rewrite IH; [exact Hcur|]. now rewrite Hlater.
Qed.

Lemma check_influencer_run_posts clients influencers m :
  new_posts (run clients influencers m)
  = mentioning (fetched (run clients influencers m)).
Proof.
  unfold check_influencer_run. destruct influencers as [|u us]; [reflexivity|].
  pose proof (influencer_loop_posts clients (take batch_size (u :: us))
                (mkInfluencerRun [] [] m) eq_refl) as H.
  destruct (new_posts _) as [|p ps] eqn:E;
    cbn [new_posts fetched]; rewrite ?E; exact H.
Qed.

Lemma check_influencer_run_idle clients influencers m :
  fetched (run clients influencers m) = [] ->
  cursor_view (bot (run_machine (run clients influencers m)))
  = cursor_view (bot m).
Proof.
  unfold check_influencer_run. destruct influencers as [|u us]; [reflexivity|].
  pose proof (influencer_loop_idle clients (take batch_size (u :: us))
                (mkInfluencerRun [] [] m)) as H.
  destruct (new_posts _) as [|p ps] eqn:E;
    cbn [fetched run_machine save emit bot]; intros Hf; now apply H.
Qed.

End TrackedAccounts.

(** ** The feed monitor *)

Section Feed.
Context {World : Type}.
Variable http_get_feed : string -> World -> FeedResult * World.

Local Abbreviation check := (check_for_new_articles http_get_feed).

(** A check that returns nothing leaves the whole state as it was. *)
Lemma check_for_new_articles_empty (m : @Machine World) :
  (check m).1 = [] -> bot (check m).2 = bot m.
Proof.
  unfold check_for_new_articles.
  destruct (http_get_feed feed_url (world m)) as [[|status_code entries] w];
    [reflexivity|].
  destruct (bool_decide (status_code ≠ 200)); [reflexivity|].
  destruct entries as [|newest entries']; [reflexivity|].
  destruct (collect_new_articles _ _) as [|a new]; [reflexivity|discriminate].
Qed.



End Feed.




(** ** The official-account classifier *)

(** C10: [is_twitter_space] depends on the text of the tweet only and
    is the single test that the lowercased text contains ["space"]; the
    clauses for ["spaces"] and ["twitter.com/i/spaces"] never decide.  So
    a tweet about a workspace is flagged too. *)
Theorem is_twitter_space_is_space_test (tweet : Tweet) :
  is_twitter_space tweet
  = PyStr.contains "space" (PyStr.lower (tw_text tweet)) /\
  is_twitter_space
    (mkTweet (tw_id tweet) "Our new WorkSpace opens on Monday" (tw_link tweet)
             (tw_username tweet) (tw_created_at tweet)) = true.
Proof.
  split; [|reflexivity].
  unfold is_twitter_space.
  destruct (PyStr.contains "space" (PyStr.lower (tw_text tweet))) eqn:E;
    [reflexivity|].
  destruct (PyStr.contains "spaces" (PyStr.lower (tw_text tweet))) eqn:E1.
  - rewrite (PyStrFacts.contains_trans "space" "spaces" _ eq_refl E1) in E.
    discriminate.
  - destruct (PyStr.contains "twitter.com/i/spaces" (PyStr.lower (tw_text tweet)))
      eqn:E2; [|reflexivity].
    rewrite (PyStrFacts.contains_trans "space" "twitter.com/i/spaces" _ eq_refl E2)
      in E.
    discriminate.
Qed.

(** ** The manager assigner *)

Lemma select_manager_least (counts : gmap string Z) (managers : list (string * Z))
    (min_count : option Z) (selected : string * Z) :
  let chosen := select_manager counts managers min_count selected in
  (chosen = selected /\
   Forall (fun p => ~ below min_count (load counts p)) managers) \/
  (exists pre post,
     managers = pre ++ chosen :: post /\
     below min_count (load counts chosen) /\
     Forall (fun p => load counts chosen < load counts p) pre /\
     Forall (fun p => load counts chosen <= load counts p) post).
Proof.
  revert min_count selected.
  induction managers as [|[name telegram_id] managers IH];
    intros min_count selected; simpl.
  - left. split; [reflexivity | constructor].
  - assert (Hdec : (match min_count with
                    | None => true
                    | Some least => bool_decide (count_of counts name < least)
                    end) = true <-> below min_count (count_of counts name)).
    { destruct min_count as [least|]; simpl; [|tauto].
      apply bool_decide_eq_true. }
    destruct (match min_count with
              | None => true
              | Some least => bool_decide (count_of counts name < least)
              end) eqn:E.
    + assert (Hb : below min_count (count_of counts name)) by now apply Hdec.
      right.
      destruct (IH (Some (count_of counts name)) (name, telegram_id))
        as [[-> Hrest]|(pre & post & Hsplit & Hlow & Hpre & Hpost)].
      * exists [], managers. split; [reflexivity|]. split; [exact Hb|].
        split; [constructor|].
        eapply Forall_impl; [exact Hrest|]. intros p Hp. unfold load in *.
        simpl in *. lia.
      * exists ((name, telegram_id) :: pre), post.
        split; [simpl; now rewrite <- Hsplit|]. simpl in Hlow.
        split.
        { destruct min_count as [least|]; simpl in *; [lia | exact I]. }
        split; [|exact Hpost].
        constructor; [exact Hlow | exact Hpre].
    + assert (Hb : ~ below min_count (count_of counts name)).
      { intros Hb. apply Hdec in Hb. congruence. }
      destruct (IH min_count selected)
        as [[-> Hrest]|(pre & post & Hsplit & Hlow & Hpre & Hpost)].
      * left. split; [reflexivity|]. constructor; [exact Hb | exact Hrest].
      * right. exists ((name, telegram_id) :: pre), post.
        split; [simpl; now rewrite <- Hsplit|].
        split; [exact Hlow|]. split; [|exact Hpost].
        constructor; [|exact Hpre].
        destruct min_count as [least|]; simpl in *; [|tauto].
        unfold load at 2. simpl. lia.
Qed.

(** C8: on a non-empty pool [assign_manager] returns a member of the
    pool whose count is smallest, the first such member in the order of
    the pool (every earlier member has a strictly larger count, every
    later one a count at least as large); it sets the count of that member
    to one more, leaves the rest of the state alone, and saves.  On the
    pool of the three managers, nine calls in a row from an all-zero
    ledger choose Igor, Roman, Dyma three times over, the first call the
    first manager, and leave every count at 3. *)
Theorem assign_manager_least_loaded {World}
    (managers : list (string * Z)) (m : @Machine World) :
  match assign_manager_from managers m with
  | None => managers = []
  | Some (selected, m') =>
      let counts := manager_assignment_counts (bot m) in
      (exists pre post,
         managers = pre ++ selected :: post /\
         Forall (fun p => load counts selected < load counts p) pre /\
         Forall (fun p => load counts selected <= load counts p) post) /\
      bot m' = set_manager_assignment_counts
                 (<[fst selected := load counts selected + 1]> counts) (bot m) /\
      world m' = world m /\
      events m' = events m ++ [Saved (bot m')]
  end /\
  let fresh := with_bot (set_manager_assignment_counts ∅) m in
  (assign_repeatedly 9 fresh).1
  = INFLUENCER_MANAGERS ++ INFLUENCER_MANAGERS ++ INFLUENCER_MANAGERS /\
  head (assign_repeatedly 9 fresh).1 = head INFLUENCER_MANAGERS /\
  Forall (fun member =>
            load (manager_assignment_counts (bot (assign_repeatedly 9 fresh).2))
                 member = 3)
         INFLUENCER_MANAGERS.
Proof.
  split.
  - unfold assign_manager_from. destruct managers as [|first managers'];
      [reflexivity|].
    cbv zeta. split; [|repeat split].
    destruct (select_manager_least (manager_assignment_counts (bot m))
                (first :: managers') None first)
      as [[_ Hnone]|(pre & post & Hsplit & _ & Hpre & Hpost)].
    + inversion Hnone as [|? ? Hfirst _]. simpl in Hfirst. tauto.
    + now exists pre, post.
  - destruct m as [[tweet_cursor feed_cursor cursors ids index usage ledger] w evs].
    vm_compute. repeat split; repeat constructor.
Qed.

(** ** Cursors *)

(** C7: a check that finds no new items keeps the cursor of its source.
    For the official account and for the feed: when the check returns the
    empty list, [last_tweet_id], respectively [last_medium_article], is
    what it was.  For the tracked accounts: a turn of the loop whose fetch
    returns the empty list keeps [influencer_last_tweets], and so does a
    whole run in which nothing was fetched. *)
Theorem no_new_items_keeps_cursor {World}
    (api_get_user : Client -> string -> World -> Outcome (option string) * World)
    (api_get_users_tweets : Client -> string -> option string -> World ->
                            Outcome (option (list RawTweet)) * World)
    (http_get_feed : string -> World -> FeedResult * World)
    (clients : list Client) (influencers : list string) (username : string)
    (m : @Machine World) (r : @InfluencerRun World) :
  ((check_for_new_tweets api_get_user api_get_users_tweets clients m).1 = [] ->
   last_tweet_id
     (bot (check_for_new_tweets api_get_user api_get_users_tweets clients m).2)
   = last_tweet_id (bot m)) /\
  ((check_for_new_articles http_get_feed m).1 = [] ->
   last_medium_article (bot (check_for_new_articles http_get_feed m).2)
   = last_medium_article (bot m)) /\
  ((get_user_tweets api_get_user api_get_users_tweets clients username
      (influencer_last_tweets (bot (run_machine r)) !! PyStr.lower username)
      (run_machine r)).1 = [] ->
   influencer_last_tweets
     (bot (run_machine
        (check_one_influencer api_get_user api_get_users_tweets clients username r)))
   = influencer_last_tweets (bot (run_machine r))) /\
  (fetched (check_influencer_run api_get_user api_get_users_tweets
              clients influencers m) = [] ->
   influencer_last_tweets
     (bot (run_machine
        (check_influencer_run api_get_user api_get_users_tweets
           clients influencers m)))
   = influencer_last_tweets (bot m)).
Proof.
  split; [|split; [|split]].
  - intros H. apply check_for_new_tweets_empty in H.
    unfold cursor_view in H. congruence.
  - intros H. now rewrite check_for_new_articles_empty.
  - intros H. unfold check_one_influencer.
    destruct (negb _); [reflexivity|].
    pose proof (get_user_tweets_cursors api_get_user api_get_users_tweets clients
                  username
                  (influencer_last_tweets (bot (run_machine r)) !! PyStr.lower username)
                  (run_machine r)) as Hc.
    destruct (get_user_tweets _ _ _ _ _ _) as [[|first rest] m1]; simpl in *.
    + unfold cursor_view in Hc. congruence.
    + discriminate.
  - intros H. apply check_influencer_run_idle in H.
    unfold cursor_view in H. congruence.
Qed.

(** ** Interesting items *)

(** C5: the list a run returns is the list of the tweets fetched in the
    run, in order, that mention the official account: a tweet is returned
    if and only if it was fetched and its lowercased text contains
    ["@beeos_arenavs"].  In particular, with ["alice"] as the only tracked
    account, her identifier cached and her cursor unset, a fetch that
    returns [t3; t2; t1] of which only [t2] mentions the account makes the
    run return exactly [t2] and leaves her cursor at the identifier of
    [t3]. *)
Theorem interesting_iff_mentions {World}
    (api_get_user : Client -> string -> World -> Outcome (option string) * World)
    (api_get_users_tweets : Client -> string -> option string -> World ->
                            Outcome (option (list RawTweet)) * World)
    (clients : list Client) (influencers : list string) (m : @Machine World) :
  let posts :=
    check_influencer_posts api_get_user api_get_users_tweets clients influencers m in
  let r :=
    check_influencer_run api_get_user api_get_users_tweets clients influencers m in
  posts.1 = filter (fun t => mentions_account t = true) (fetched r) /\
  (forall t,
     t ∈ posts.1 <->
     t ∈ fetched r /\
     exists a b, PyStr.lower (tw_text t) = (a ++ "@beeos_arenavs" ++ b)%string) /\
  (forall (t3 t2 t1 : Tweet) (m1 : @Machine World),
     influencers = ["alice"] ->
     PyStr.truthy_opt (influencer_user_ids (bot m) !! "alice") = true ->
     influencer_last_tweets (bot m) !! "alice" = None ->
     get_user_tweets api_get_user api_get_users_tweets clients "alice" None m
       = ([t3; t2; t1], m1) ->
     mentions_account t3 = false ->
     mentions_account t2 = true ->
     mentions_account t1 = false ->
     posts.1 = [t2] /\
     influencer_last_tweets (bot posts.2) !! "alice" = Some (tw_id t3)).
Proof.
  intros posts r. subst posts r. unfold check_influencer_posts. cbn [fst snd].
  split; [apply check_influencer_run_posts|]. split.
  - intros t. rewrite check_influencer_run_posts, list_elem_of_filter.
    unfold mentions_account. rewrite PyStrFacts.contains_iff.
    change (PyStr.lower ("@" ++ TWITTER_ACCOUNT)) with "@beeos_arenavs".
    tauto.
  - intros t3 t2 t1 m1 -> Hid Hcur Hfetch H3 H2 H1.
    unfold check_influencer_run, influencer_loop, batch_size.
    cbn [take fold_left]. unfold check_one_influencer.
    change (PyStr.lower "alice") with "alice".
    cbn [run_machine new_posts fetched]. rewrite Hid, Hcur. cbn [negb].
    rewrite Hfetch. cbn [app].
    rewrite !filter_cons, filter_nil.
    repeat case_decide; try congruence.
    cbn [new_posts run_machine fetched save emit with_bot bot].
    split; [reflexivity|].
    unfold set_influencer_last_tweets. cbn [influencer_last_tweets].
    apply lookup_insert_eq.
Qed.

(** C4, the run that the claim gets wrong: ["alice"] is tracked and
    known, the pool has one working client, and the fetch returns one
    tweet that does not mention the account.  The run returns nothing and
    moves the cursor of ["alice"] to that tweet in memory, but its only
    save is the one of the pool call, made before the cursor moved: no
    snapshot written in the run holds the new cursor. *)
Theorem quiet_run_cursor_not_saved :
  let after :=
    check_influencer_posts Demo.get_user Demo.get_users_tweets
      ["good"] ["alice"] (Demo.boot Demo.alice_known [Demo.T1]) in
  after.1 = [] /\
  influencer_last_tweets (bot after.2) !! "alice" = Some "1001" /\
  map (saved_cursor "alice") (events after.2) = [Some None].
Proof. vm_compute. repeat split. Qed.

(** ** The statements at work on the scripted remote side *)

(** A pool whose first client is rate limited and whose second one is
    served: the first candidate fails, the second returns, the call
    returns its result and the index stored is 1, where the next call
    starts.  And a pool in which every client fails: no result, and the
    index stays at 0. *)
Lemma sticky_success_rotation_witness :
  let operation :=
    get_user_tweets_operation Demo.get_user Demo.get_users_tweets "alice" None in
  let m := Demo.boot Demo.alice_known [Demo.T1] in
  let r := _try_all_clients operation ["limited"; "good"; "broken"] m in
  let failed := _try_all_clients operation ["limited"; "broken"] m in
  keeps_index operation /\
  (operation "limited" m).1 = TooManyRequests /\
  (operation "good" (operation "limited" m).2).1 = Returned (Some [Demo.T1]) /\
  tr_tried r = [0; 1] /\
  tr_result r = Some (Some [Demo.T1]) /\
  current_token_index (bot (tr_machine r)) = 1 /\
  (forall operation' : @Operation Demo.World (option (list RawTweet)),
     head (tr_tried (_try_all_clients operation' ["limited"; "good"; "broken"]
                       (tr_machine r))) = Some 1) /\
  tr_result failed = None /\
  current_token_index (bot (tr_machine failed)) = 0.
Proof.
  intros operation m r failed.
  assert (H : keeps_index operation).
  { apply keeps_rotation_index, get_user_tweets_operation_keeps_rotation. }
  split; [exact H|]. split; [vm_compute; reflexivity|].
  split; [vm_compute; reflexivity|]. split; [vm_compute; reflexivity|].
  destruct (sticky_success_rotation operation ["limited"; "good"; "broken"] m H)
    as (Hsuccess & _ & _ & _).
  destruct (Hsuccess 1%nat (operation "limited" m).2
              (operation "good" (operation "limited" m).2).2
              (Some [Demo.T1]))
    as (Hres & Hidx & Hnext);
    [simpl; lia | vm_compute; reflexivity | vm_compute; reflexivity |].
  split; [exact Hres|]. split; [exact Hidx|]. split; [exact Hnext|].
  destruct (sticky_success_rotation operation ["limited"; "broken"] m H)
    as (_ & Hfail & _ & _).
  destruct (Hfail (operation "broken" (operation "limited" m).2).2)
    as (Hnone & _ & Hstay); [vm_compute; reflexivity|].
  split; [exact Hnone | exact Hstay].
Defined.

(** A pool in which every client fails. *)
Lemma failed_call_keeps_rotation_state_witness :
  let operation :=
    get_user_tweets_operation Demo.get_user Demo.get_users_tweets "alice" None in
  let clients := ["limited"; "broken"] in
  let m := Demo.boot Demo.alice_known [Demo.T1] in
  let r := _try_all_clients operation clients m in
  length (tr_errors r) = length clients /\
  tr_result r = None /\
  current_token_index (bot (tr_machine r)) = current_token_index (bot m) /\
  token_usage_counts (bot (tr_machine r)) = token_usage_counts (bot m) /\
  exists new : list Event,
    events (tr_machine r) = events m ++ new /\
    Forall (fun e => forall s, e = Saved s ->
              current_token_index s = current_token_index (bot m) /\
              token_usage_counts s = token_usage_counts (bot m)) new.
Proof.
  intros operation clients m r.
  assert (Hlen : length (tr_errors r) = length clients)
    by (vm_compute; reflexivity).
  split; [exact Hlen|].
  apply (failed_call_keeps_rotation_state operation clients m);
    [apply get_user_tweets_operation_keeps_rotation | exact Hlen].
Defined.

(** The scenario of the tracked account ["alice"]. *)
Lemma interesting_iff_mentions_witness :
  let m := Demo.boot Demo.alice_known [Demo.T3; Demo.T2; Demo.T1] in
  let posts :=
    check_influencer_posts Demo.get_user Demo.get_users_tweets
      ["good"] ["alice"] m in
  mentions_account (tweet_dict "alice" Demo.T2) = true /\
  posts.1 = [tweet_dict "alice" Demo.T2] /\
  influencer_last_tweets (bot posts.2) !! "alice" = Some "1003".
Proof.
  intros m posts. split; [vm_compute; reflexivity|].
  apply (proj2 (proj2 (interesting_iff_mentions Demo.get_user
                         Demo.get_users_tweets ["good"] ["alice"] m))
           (tweet_dict "alice" Demo.T3) (tweet_dict "alice" Demo.T2)
           (tweet_dict "alice" Demo.T1)
           (get_user_tweets Demo.get_user Demo.get_users_tweets
              ["good"] "alice" None m).2);
    vm_compute; reflexivity.
Defined.

(** A process that has seen everything: each of the three checks finds
    nothing and each cursor stays. *)
Lemma no_new_items_keeps_cursor_witness :
  let m := Demo.boot Demo.caught_up [Demo.T3; Demo.T2; Demo.T1] in
  let r := mkInfluencerRun [] [] m in
  last_tweet_id
    (bot (check_for_new_tweets Demo.get_user Demo.get_users_tweets ["good"] m).2)
  = Some "1003" /\
  last_medium_article (bot (check_for_new_articles Demo.get_feed m).2)
  = Some "post-1" /\
  influencer_last_tweets
    (bot (run_machine
       (check_one_influencer Demo.get_user Demo.get_users_tweets
          ["good"] "alice" r))) !! "alice"
  = Some "1003" /\
  influencer_last_tweets
    (bot (run_machine
       (check_influencer_run Demo.get_user Demo.get_users_tweets
          ["good"] ["alice"] m))) !! "alice"
  = Some "1003".
Proof.
  intros m r.
  destruct (no_new_items_keeps_cursor Demo.get_user Demo.get_users_tweets
              Demo.get_feed ["good"] ["alice"] "alice" m r)
    as (H1 & H2 & H3 & H4).
  split; [rewrite H1; [reflexivity | vm_compute; reflexivity]|].
  split; [rewrite H2; [reflexivity | vm_compute; reflexivity]|].
  split; [rewrite H3; [reflexivity | vm_compute; reflexivity]|].
  rewrite H4; [reflexivity | vm_compute; reflexivity].
Defined.

(** * Further properties of the code *)

(** ** The pool: bookkeeping of one call *)

Section PoolBookkeeping.
Context {World R : Type}.
Variable operation : @Operation World R.

Lemma try_clients_success_counts clients start range errors tried m result :
  keeps_rotation operation ->
  tr_result (try_clients operation clients start range errors tried m)
    = Some result ->
  let r := try_clients operation clients start range errors tried m in
  token_usage_counts (bot (tr_machine r))
  = bump (token_usage_counts (bot m)) (current_token_index (bot (tr_machine r))).
Proof.
  intros Hop. revert errors tried m.
  induction range as [|i range IH]; intros errors tried m; simpl.
  - discriminate.
  - destruct (Hop (clients !!! Z.to_nat ((start + i) `mod` Z.of_nat (length clients))) m)
      as [Hview _].
    unfold rotation_view in Hview. injection Hview as _ Hcnt.
    destruct (operation _ m) as [[res| |msg] m1]; simpl in *.
    + intros _. now rewrite Hcnt.
    + intros H. rewrite <- Hcnt. now apply IH.
    + intros H. rewrite <- Hcnt. now apply IH.
Qed.

(** The token numbers in [errors] are those of the clients tried, less
    the successful one. *)
Lemma try_clients_error_numbers clients start range errors tried m :
  (fun c => c + 1) <$> tried = fst <$> errors ->
  let r := try_clients operation clients start range errors tried m in
  (fun c => c + 1) <$> tr_tried r
  = (fst <$> tr_errors r)
      ++ match tr_result r with
         | Some _ => [current_token_index (bot (tr_machine r)) + 1]
         | None => []
         end.
Proof.
  revert errors tried m.
  induction range as [|i range IH]; intros errors tried m Hacc; simpl.
  - now rewrite app_nil_r.
  - destruct (operation _ m) as [[res| |msg] m1]; simpl.
    + now rewrite fmap_app, Hacc.
    + apply IH. now rewrite !fmap_app, Hacc.
    + apply IH. now rewrite !fmap_app, Hacc.
Qed.

End PoolBookkeeping.

(** X1: a call that returns a result leaves the rotation index inside the
    pool, whatever index was stored before (a state file written for a
    larger pool, say); the usage counter of that client, and no other, is
    one more than before the call; and the last event of the call is the
    save of the state as it is in memory.  The operation is assumed to
    keep the rotation state itself. *)
Theorem successful_call_bookkeeping {World R} (operation : @Operation World R)
    (clients : list Client) (m : Machine) (result : R) :
  keeps_rotation operation ->
  tr_result (_try_all_clients operation clients m) = Some result ->
  let after := tr_machine (_try_all_clients operation clients m) in
  let c := current_token_index (bot after) in
  0 <= c < Z.of_nat (length clients) /\
  token_usage_counts (bot after)
  = <[c := count_of (token_usage_counts (bot m)) c + 1]>
      (token_usage_counts (bot m)) /\
  last (events after) = Some (Saved (bot after)).
Proof.
  intros Hop Hres after c. subst after c.
  unfold _try_all_clients in *. destruct clients as [|client clients'];
    [discriminate|].
  destruct (try_clients_some _ _ _ _ _ _ _ _ Hres)
    as (i & c & m0 & m1 & Hi & Hc & _ & _ & Hidx & _ & Hlast).
  split.
  - rewrite Hidx, Hc. apply candidate_bounds. simpl length. lia.
  - split; [|exact Hlast].
    apply (try_clients_success_counts operation _ _ _ _ _ _ _ Hop Hres).
Qed.

(** X2: the [errors] list of a call holds one entry per failed attempt,
    in the order of trying, each under the 1-based number of its token;
    the successful client, if any, is the only one tried that left
    none. *)
Theorem errors_list_names_failed_tokens {World R} (operation : @Operation World R)
    (clients : list Client) (m : Machine) :
  let r := _try_all_clients operation clients m in
  (fun c => c + 1) <$> tr_tried r
  = (fst <$> tr_errors r)
      ++ match tr_result r with
         | Some _ => [current_token_index (bot (tr_machine r)) + 1]
         | None => []
         end.
Proof.
  unfold _try_all_clients. destruct clients as [|client clients'];
    [reflexivity|].
  now apply try_clients_error_numbers.
Qed.

Lemma rotation_order_Permutation (start : Z) (n : nat) :
  rotation_order start (Z.of_nat n) ≡ₚ seqZ 0 (Z.of_nat n).
Proof.
  apply submseteq_length_Permutation.
  - apply NoDup_submseteq; [apply NoDup_rotation_order|].
    intros c Hc. apply elem_of_seqZ.
    pose proof (rotation_order_bounds start (Z.of_nat n)) as Hb.
    rewrite Forall_forall in Hb. specialize (Hb c Hc). lia.
  - rewrite length_rotation_order, length_seqZ. lia.
Qed.

(** X3: failover is exhaustive.  A call gives up (returns [None]) only
    after it has invoked the operation on every client of the pool, each
    exactly once: the indices tried are then a rearrangement of
    [0 .. N-1]. *)
Theorem gives_up_only_after_all_clients {World R} (operation : @Operation World R)
    (clients : list Client) (m : Machine) :
  tr_result (_try_all_clients operation clients m) = None ->
  tr_tried (_try_all_clients operation clients m)
  ≡ₚ seqZ 0 (Z.of_nat (length clients)).
Proof.
  unfold _try_all_clients. destruct clients as [|client clients'];
    [reflexivity|].
  intros Hnone. rewrite (try_clients_none_tried _ _ _ _ _ _ _ Hnone).
  rewrite app_nil_l.
  apply (rotation_order_Permutation (current_token_index (bot m))
           (length (client :: clients'))).
Qed.

(** ** Fetching: what a fetch may and may not do *)

Section PoolRelations.
Context {World R : Type}.

(** Two operations that agree wherever an invariant holds give the same
    call. *)
Lemma try_clients_agree (op1 op2 : @Operation World R) (I : @Machine World -> Prop)
    clients start range errors tried m :
  (forall client m, I m -> op1 client m = op2 client m) ->
  (forall client m, I m -> I (op1 client m).2) ->
  I m ->
  try_clients op1 clients start range errors tried m
  = try_clients op2 clients start range errors tried m.
Proof.
  intros Heq Hinv. revert errors tried m.
  induction range as [|i range IH]; intros errors tried m Hm; simpl.
  - reflexivity.
  - rewrite <- (Heq _ m Hm).
    pose proof (Hinv (clients !!! Z.to_nat ((start + i) `mod` Z.of_nat (length clients)))
                  m Hm) as Hnext.
    destruct (op1 _ m) as [[res| |msg] m1]; simpl in *.
    + reflexivity.
    + now apply IH.
    + now apply IH.
Qed.

(** A reflexive, transitive relation on states that the operation
    respects, and that ignores the rotation bookkeeping, relates the state
    before a call to the state after it. *)
Lemma try_all_clients_rel (operation : @Operation World R)
    (rel : BotState -> BotState -> Prop) clients m :
  (forall b, rel b b) ->
  (forall b1 b2 b3, rel b1 b2 -> rel b2 b3 -> rel b1 b3) ->
  (forall client m, rel (bot m) (bot (operation client m).2)) ->
  (forall v b, rel b (set_current_token_index v b)) ->
  (forall v b, rel b (set_token_usage_counts v b)) ->
  rel (bot m) (bot (tr_machine (_try_all_clients operation clients m))).
Proof.
  intros Hrefl Htrans Hop Hidx Hcnt. unfold _try_all_clients.
  destruct clients as [|client clients']; [apply Hrefl|].
  generalize (seqZ 0 (Z.of_nat (length (client :: clients')))).
  generalize (current_token_index (bot m)) as start.
  generalize (@nil (Z * string)) as errors. generalize (@nil Z) as tried.
  intros tried errors start range. revert errors tried m.
  induction range as [|i range IH]; intros errors tried m; simpl.
  - apply Hrefl.
  - pose proof (Hop ((client :: clients') !!! Z.to_nat
                       ((start + i) `mod` Z.of_nat (length (client :: clients')))) m)
      as Hstep.
    destruct (operation _ m) as [[res| |msg] m1]; simpl in *.
    + eapply Htrans; [exact Hstep|]. eapply Htrans; [apply Hidx|]. apply Hcnt.
    + eapply Htrans; [exact Hstep | apply IH].
    + eapply Htrans; [exact Hstep | apply IH].
Qed.

End PoolRelations.

Lemma get_user_tweets_cached {World}
    (api_get_user api_get_user' :
       Client -> string -> World -> Outcome (option string) * World)
    (api_get_users_tweets : Client -> string -> option string -> World ->
                            Outcome (option (list RawTweet)) * World)
    (clients : list Client) (username : string) (since_id : option string)
    (m : @Machine World) :
  PyStr.truthy_opt (influencer_user_ids (bot m) !! username) = true ->
  get_user_tweets api_get_user api_get_users_tweets clients username since_id m
  = get_user_tweets api_get_user' api_get_users_tweets clients username since_id m
  /\
  influencer_user_ids
    (bot (get_user_tweets api_get_user api_get_users_tweets
            clients username since_id m).2)
  = influencer_user_ids (bot m).
Proof.
  intros Hcached.
  set (I := fun m' : @Machine World =>
              influencer_user_ids (bot m') = influencer_user_ids (bot m)).
  assert (Hsame : forall client m', I m' ->
            get_user_tweets_operation api_get_user api_get_users_tweets
              username since_id client m'
            = get_user_tweets_operation api_get_user' api_get_users_tweets
              username since_id client m').
  { intros client m' Hm'. unfold get_user_tweets_operation.
    rewrite Hm', Hcached. reflexivity. }
  assert (Hkeep : forall client m', I m' ->
            I (get_user_tweets_operation api_get_user api_get_users_tweets
                 username since_id client m').2).
  { intros client m' Hm'. unfold get_user_tweets_operation, I in *.
    rewrite Hm', Hcached.
    destruct (api_get_users_tweets _ _ _ _) as [out w]. exact Hm'. }
  split.
  - unfold get_user_tweets, _try_all_clients.
    destruct clients as [|client clients']; [reflexivity|].
    rewrite (try_clients_agree _ _ I _ _ _ _ _ _ Hsame Hkeep eq_refl).
    reflexivity.
  - unfold get_user_tweets.
    assert (H : influencer_user_ids
                  (bot (tr_machine (_try_all_clients
                     (get_user_tweets_operation api_get_user api_get_users_tweets
                        username since_id) clients m)))
                = influencer_user_ids (bot m)).
    { apply (try_all_clients_rel _
               (fun b1 b2 => influencer_user_ids b1 = influencer_user_ids (bot m) ->
                             influencer_user_ids b2 = influencer_user_ids (bot m))
               clients m); try (intros; simpl; tauto).
      intros client m' Hm'. now apply Hkeep. }
    destruct (tr_result _) as [[[|tweet data]|]|]; exact H.
Qed.

(** X4: with the identifier of the account in the cache, fetching its
    tweets sends no lookup request: the outcome is the same whatever the
    lookup service would answer, and the identity cache is left as it
    was. *)
Theorem cached_identifier_needs_no_lookup {World}
    (api_get_user api_get_user' :
       Client -> string -> World -> Outcome (option string) * World)
    (api_get_users_tweets : Client -> string -> option string -> World ->
                            Outcome (option (list RawTweet)) * World)
    (clients : list Client) (username : string) (since_id : option string)
    (m : @Machine World) :
  PyStr.truthy_opt (influencer_user_ids (bot m) !! username) = true ->
  get_user_tweets api_get_user api_get_users_tweets clients username since_id m
  = get_user_tweets api_get_user' api_get_users_tweets clients username since_id m
  /\
  influencer_user_ids
    (bot (get_user_tweets api_get_user api_get_users_tweets
            clients username since_id m).2)
  = influencer_user_ids (bot m).
Proof. apply get_user_tweets_cached. Qed.

(** X5: a fetch never overwrites a resolved identifier and never drops a
    cache entry: every entry of the identity cache with a non-empty value
    is the same after [get_user_tweets], and only the entry of the account
    asked for can change at all.  It changes no cursor and not the
    assignment ledger, and it sends no message. *)
Theorem fetch_changes_only_unresolved_entry {World}
    (api_get_user : Client -> string -> World -> Outcome (option string) * World)
    (api_get_users_tweets : Client -> string -> option string -> World ->
                            Outcome (option (list RawTweet)) * World)
    (clients : list Client) (username : string) (since_id : option string)
    (m : @Machine World) :
  let after :=
    (get_user_tweets api_get_user api_get_users_tweets
       clients username since_id m).2 in
  (forall k, k <> username \/
             PyStr.truthy_opt (influencer_user_ids (bot m) !! k) = true ->
     influencer_user_ids (bot after) !! k = influencer_user_ids (bot m) !! k) /\
  cursor_view (bot after) = cursor_view (bot m) /\
  manager_assignment_counts (bot after) = manager_assignment_counts (bot m) /\
  exists new : list Event,
    events after = events m ++ new /\ Forall (fun e => is_sent e = false) new.
Proof.
  intros after. subst after.
  split; [|split; [apply get_user_tweets_cursors|split;
                   [|apply get_user_tweets_events]]].
  - intros k Hk. unfold get_user_tweets.
    assert (H : influencer_user_ids
                  (bot (tr_machine (_try_all_clients
                     (get_user_tweets_operation api_get_user api_get_users_tweets
                        username since_id) clients m))) !! k
                = influencer_user_ids (bot m) !! k).
    { apply (try_all_clients_rel _
               (fun b1 b2 =>
                  influencer_user_ids b1 !! k = influencer_user_ids (bot m) !! k ->
                  influencer_user_ids b2 !! k = influencer_user_ids (bot m) !! k)
               clients m); try (intros; simpl; tauto).
      intros client m' Hm'. unfold get_user_tweets_operation.
      destruct (PyStr.truthy_opt (influencer_user_ids (bot m') !! username))
        eqn:Hc.
      - destruct (api_get_users_tweets _ _ _ _) as [out w]. exact Hm'.
      - destruct (api_get_user client username (world m'))
          as [[[uid|]| |msg] w]; simpl; try exact Hm'.
        destruct (api_get_users_tweets _ _ _ _) as [out w']. simpl.
        destruct Hk as [Hne|Htruthy].
        + rewrite lookup_insert_ne by congruence. exact Hm'.
        + destruct (decide (k = username)) as [->|Hne].
          * rewrite <- Hm' in Htruthy. congruence.
          * rewrite lookup_insert_ne by congruence. exact Hm'. }
    destruct (tr_result _) as [[[|tweet data]|]|]; exact H.
  - unfold get_user_tweets.
    assert (H : manager_assignment_counts
                  (bot (tr_machine (_try_all_clients
                     (get_user_tweets_operation api_get_user api_get_users_tweets
                        username since_id) clients m)))
                = manager_assignment_counts (bot m)).
    { apply try_all_clients_frame; [|reflexivity|reflexivity].
      intros client m'. unfold get_user_tweets_operation.
      destruct (PyStr.truthy_opt _).
      - destruct (api_get_users_tweets _ _ _ _) as [out w]. reflexivity.
      - destruct (api_get_user client username (world m'))
          as [[[uid|]| |msg] w]; simpl; try reflexivity.
        destruct (api_get_users_tweets _ _ _ _) as [out w']. reflexivity. }
    destruct (tr_result _) as [[[|tweet data]|]|]; exact H.
Qed.

(** ** The feed monitor: which entries are new *)

Lemma collect_new_articles_prefix (cursor : option string)
    (entries : list FeedEntry) :
  exists k : nat,
    (k <= length entries)%nat /\
    collect_new_articles cursor entries = article_dict <$> take k entries /\
    Forall (fun e => Some (entry_id e) <> cursor \/ PyStr.truthy_opt cursor = false)
           (take k entries) /\
    ((k < length entries)%nat ->
     exists e, entries !! k = Some e /\ cursor = Some (entry_id e) /\
               PyStr.truthy_opt cursor = true).
Proof.
  induction entries as [|entry entries IH]; simpl.
  - exists 0%nat. split; [lia|]. split; [reflexivity|].
    split; [constructor | lia].
  - destruct (PyStr.truthy_opt cursor) eqn:Ht; simpl.
    + case_bool_decide as Hc.
      * exists 0%nat. simpl. split; [lia|]. split; [reflexivity|].
        split; [constructor|]. intros _. exists entry. now repeat split.
      * destruct IH as (k & Hk & Hcol & Hall & Hstop).
        exists (S k). simpl. split; [lia|]. split; [now rewrite Hcol|].
        split; [constructor; [now left | exact Hall]|].
        intros Hlt. apply Hstop. lia.
    + destruct IH as (k & Hk & Hcol & Hall & Hstop).
      exists (S k). simpl. split; [lia|]. split; [now rewrite Hcol|].
      split; [constructor; [now right | exact Hall]|].
      intros Hlt. apply Hstop. lia.
Qed.

(** X6: on a 200 response a feed check returns the articles of a prefix
    of the entries, in feed order: at most five, none of them the entry
    the cursor names; and when it returns fewer than five while more
    entries follow, the next entry is the one the cursor names.  So an
    entry older than the fifth is never reported, even if it is newer than
    the cursor. *)
Theorem feed_check_returns_newer_prefix {World}
    (http_get_feed : string -> World -> FeedResult * World)
    (m : @Machine World) (entries : list FeedEntry) (w : World) :
  http_get_feed feed_url (world m) = (FeedResponse 200 entries, w) ->
  let cursor := last_medium_article (bot m) in
  exists k : nat,
    (k <= 5)%nat /\
    (check_for_new_articles http_get_feed m).1 = article_dict <$> take k entries /\
    Forall (fun e => Some (entry_id e) <> cursor \/ PyStr.truthy_opt cursor = false)
           (take k entries) /\
    ((k < 5)%nat -> (k < length entries)%nat ->
     exists e, entries !! k = Some e /\ cursor = Some (entry_id e)).
Proof.
  intros Hfeed cursor. subst cursor. unfold check_for_new_articles.
  rewrite Hfeed. rewrite bool_decide_eq_false_2 by (intros H; now apply H).
  destruct entries as [|newest entries'].
  - exists 0%nat. split; [lia|]. split; [reflexivity|].
    split; [constructor | simpl; lia].
  - destruct (collect_new_articles_prefix
                (last_medium_article (bot (with_world w m)))
                (take 5 (newest :: entries')))
      as (k & Hk & Hcol & Hall & Hstop).
    rewrite length_take in Hk.
    assert (Htake : take k (take 5 (newest :: entries')) = take k (newest :: entries')).
    { rewrite take_take. f_equal. lia. }
    rewrite Htake in Hcol, Hall.
    exists k. split; [lia|]. split.
    + destruct (collect_new_articles _ _) as [|a new] eqn:E; exact Hcol.
    + split; [exact Hall|]. intros H5 Hlen.
      destruct Hstop as (e & He & Hc & _); [rewrite length_take; lia|].
      exists e. split; [|exact Hc].
      rewrite lookup_take_lt in He by exact H5. exact He.
Qed.

(** X7: a feed check is idempotent against an unchanged feed.  When the
    feed answers two checks in a row with the same 200 response and its
    newest entry has a non-empty identifier, the second check returns
    nothing and leaves the state as the first one left it. *)
Theorem feed_check_twice_is_quiet {World}
    (http_get_feed : string -> World -> FeedResult * World)
    (m : @Machine World) (newest : FeedEntry) (older : list FeedEntry)
    (w1 w2 : World) :
  http_get_feed feed_url (world m) = (FeedResponse 200 (newest :: older), w1) ->
  http_get_feed feed_url w1 = (FeedResponse 200 (newest :: older), w2) ->
  entry_id newest <> "" ->
  let m1 := (check_for_new_articles http_get_feed m).2 in
  last_medium_article (bot m1) = Some (entry_id newest) /\
  (check_for_new_articles http_get_feed m1).1 = [] /\
  bot (check_for_new_articles http_get_feed m1).2 = bot m1 /\
  events (check_for_new_articles http_get_feed m1).2 = events m1.
Proof.
  intros Hfeed1 Hfeed2 Hid m1.
  assert (Htruthy : PyStr.truthy (entry_id newest) = true).
  { destruct (entry_id newest); [congruence | reflexivity]. }
  assert (Hm1 : last_medium_article (bot m1) = Some (entry_id newest)
                /\ world m1 = w1).
  { subst m1. unfold check_for_new_articles. rewrite Hfeed1.
    rewrite bool_decide_eq_false_2 by (intros H; now apply H).
    destruct (collect_new_articles _ _) as [|a new] eqn:E; [|now split].
    split; [|reflexivity].
    cbn [take collect_new_articles] in E.
    destruct (PyStr.truthy_opt (last_medium_article (bot (with_world w1 m))))
      eqn:Ht; simpl in E; [|discriminate].
    case_bool_decide as Hc; [|discriminate]. symmetry. exact Hc. }
  destruct Hm1 as [Hcur Hw]. split; [exact Hcur|].
  unfold check_for_new_articles. rewrite Hw, Hfeed2.
  rewrite bool_decide_eq_false_2 by (intros H; now apply H).
  cbn [take collect_new_articles with_world bot].
  rewrite Hcur. cbn [PyStr.truthy_opt]. rewrite Htruthy.
  rewrite bool_decide_eq_true_2 by reflexivity. now cbn.
Qed.

(** X8: the idempotence depends on that identifier.  When the newest
    entry of a 200 response has neither an [id] nor a [link], the check
    returns a non-empty list whatever the cursor is, and stores the empty
    cursor, which the next check takes for no cursor at all: the same
    entries are reported on every cycle. *)
Theorem feed_entry_without_id_is_reported_again {World}
    (http_get_feed : string -> World -> FeedResult * World)
    (m : @Machine World) (newest : FeedEntry) (older : list FeedEntry)
    (w : World) :
  http_get_feed feed_url (world m) = (FeedResponse 200 (newest :: older), w) ->
  entry_id newest = "" ->
  (check_for_new_articles http_get_feed m).1 <> [] /\
  head (check_for_new_articles http_get_feed m).1 = Some (article_dict newest) /\
  last_medium_article (bot (check_for_new_articles http_get_feed m).2)
  = Some "" /\
  PyStr.truthy_opt
    (last_medium_article (bot (check_for_new_articles http_get_feed m).2))
  = false.
Proof.
  intros Hfeed Hid. unfold check_for_new_articles. rewrite Hfeed.
  rewrite bool_decide_eq_false_2 by (intros H; now apply H).
  cbn [take collect_new_articles]. rewrite Hid.
  assert (Hno : PyStr.truthy_opt (last_medium_article (bot (with_world w m)))
                && bool_decide (Some "" = last_medium_article (bot (with_world w m)))
                = false).
  { destruct (last_medium_article (bot (with_world w m))) as [[|c s]|];
      try reflexivity.
    all: simpl; apply bool_decide_eq_false_2; congruence. }
  rewrite Hno. cbn. repeat split. discriminate.
Qed.

(** ** The feed job *)

Lemma emit_all_bot {World A} (g : A -> Event) (l : list A) (m : @Machine World) :
  bot (fold_left (fun m x => emit (g x) m) l m) = bot m.
Proof.
  revert m. induction l as [|x l IH]; intros m; simpl; [reflexivity|].
  now rewrite IH.
Qed.

Lemma send_medium_notification_effect {World} (article : Article)
    (m : @Machine World) :
  bot (send_medium_notification article m) = bot m /\
  events (send_medium_notification article m) = events m ++ medium_sends article.
Proof.
  unfold send_medium_notification, medium_sends. split.
  - apply emit_all_bot.
  - apply emit_all_events.
Qed.

Lemma send_medium_notifications_effect {World} (articles : list Article)
    (m : @Machine World) :
  let after := fold_left (fun m article => send_medium_notification article m)
                         articles m in
  bot after = bot m /\
  events after = events m ++ concat (map medium_sends articles).
Proof.
  revert m. induction articles as [|a articles IH]; intros m;
    cbn [fold_left map concat].
  - now rewrite app_nil_r.
  - destruct (IH (send_medium_notification a m)) as [Hb He].
    destruct (send_medium_notification_effect a m) as [Hb1 He1].
    cbv zeta. rewrite Hb, He, Hb1, He1, <- app_assoc. now split.
Qed.

(** X9: the feed job saves before it sends.  When the check returns
    articles, the feed has answered with status 200 and a first (newest)
    entry; the job changes the state in the article cursor only, and the
    cursor afterwards is the identifier of that newest entry; the events
    of the job are the save of that state followed by the messages, one
    per team member and article; nothing else is written or sent.  When
    the check returns nothing (no new entry, a status other than 200, a
    failed request), the job writes nothing, sends nothing and leaves the
    state as it was. *)
Theorem medium_job_saves_before_sending {World}
    (http_get_feed : string -> World -> FeedResult * World) (m : @Machine World) :
  let articles := (check_for_new_articles http_get_feed m).1 in
  let after := check_medium_job http_get_feed m in
  match articles with
  | [] => bot after = bot m /\ events after = events m
  | _ :: _ =>
      exists (newest : FeedEntry) (older : list FeedEntry) (w : World),
        http_get_feed feed_url (world m)
        = (FeedResponse 200 (newest :: older), w) /\
        last_medium_article (bot after) = Some (entry_id newest) /\
        bot after = set_last_medium_article (Some (entry_id newest)) (bot m) /\
        events after
        = events m ++ [Saved (bot after)] ++ concat (map medium_sends articles)
  end.
Proof.
  intros articles after. subst articles after.
  unfold check_medium_job.
  unfold check_for_new_articles.
  destruct (http_get_feed feed_url (world m)) as [[|status_code entries] w];
    [now split|].
  case_bool_decide as Hstatus; [now split|].
  destruct entries as [|newest entries']; [now split|].
  destruct (collect_new_articles _ _) as [|a new] eqn:E; [now split|].
  cbn [fst snd].
  destruct (send_medium_notifications_effect (a :: new)
              (save (with_bot (set_last_medium_article (Some (entry_id newest)))
                       (with_world w m)))) as [Hb He].
  cbv zeta in Hb, He.
  exists newest, entries', w.
  split; [|split; [|split]].
  - destruct (decide (status_code = 200)) as [->|Hne]; [reflexivity|].
    now destruct Hstatus.
  - rewrite Hb. reflexivity.
  - rewrite Hb. reflexivity.
  - rewrite Hb, He. simpl. now rewrite <- app_assoc.
Qed.

(** ** The assigner over time *)

Lemma select_manager_min (counts : gmap string Z) (first : string * Z)
    (pool : list (string * Z)) :
  let selected := select_manager counts (first :: pool) None first in
  selected ∈ first :: pool /\
  forall p, p ∈ first :: pool -> load counts selected <= load counts p.
Proof.
  intros selected. subst selected.
  destruct (select_manager_least counts (first :: pool) None first)
    as [[_ Hnone]|(pre & post & Hsplit & _ & Hpre & Hpost)].
  - inversion Hnone as [|? ? Hfirst _]. simpl in Hfirst. tauto.
  - split.
    + rewrite Hsplit at 2. apply elem_of_app. right. left.
    + intros p Hp. rewrite Hsplit in Hp.
      apply elem_of_app in Hp as [Hp|Hp].
      * rewrite Forall_forall in Hpre. specialize (Hpre p Hp). lia.
      * apply elem_of_cons in Hp as [->|Hp]; [lia|].
        rewrite Forall_forall in Hpost. now apply Hpost.
Qed.

Lemma load_bump (counts : gmap string Z) (name : string) (p : string * Z) :
  load (bump counts name) p
  = if decide (fst p = name) then load counts p + 1 else load counts p.
Proof.
  unfold load, bump, count_of. destruct (decide (fst p = name)) as [->|Hne].
  - now rewrite lookup_insert_eq.
  - rewrite lookup_insert_ne by congruence. reflexivity.
Qed.

(** X10: assignments keep a balanced ledger balanced.  If no two members
    of the pool are more than one assignment apart, the same holds after
    [assign_manager]; the count of the member chosen has grown by one and
    the count of every member under another name is unchanged. *)
Theorem assignment_keeps_ledger_balanced {World}
    (pool : list (string * Z)) (m m' : @Machine World) (selected : string * Z) :
  balanced (manager_assignment_counts (bot m)) pool ->
  assign_manager_from pool m = Some (selected, m') ->
  selected ∈ pool /\
  balanced (manager_assignment_counts (bot m')) pool /\
  forall p,
    load (manager_assignment_counts (bot m')) p
    = if decide (fst p = fst selected)
      then load (manager_assignment_counts (bot m)) p + 1
      else load (manager_assignment_counts (bot m)) p.
Proof.
  intros Hbal Hassign. unfold assign_manager_from in Hassign.
  destruct pool as [|first pool']; [discriminate|].
  injection Hassign as <- <-.
  destruct (select_manager_min (manager_assignment_counts (bot m)) first pool')
    as [Hin Hmin].
  set (selected := select_manager (manager_assignment_counts (bot m))
                     (first :: pool') None first) in *.
  split; [exact Hin|].
  assert (Hload : forall p,
            load (manager_assignment_counts
                    (bot (save (with_bot (fun b =>
                       set_manager_assignment_counts
                         (bump (manager_assignment_counts b) (fst selected)) b) m)))) p
            = if decide (fst p = fst selected)
              then load (manager_assignment_counts (bot m)) p + 1
              else load (manager_assignment_counts (bot m)) p).
  { intros p. apply load_bump. }
  split; [|exact Hload].
  intros p q Hp Hq. rewrite !Hload.
  pose proof (Hbal p q Hp Hq). pose proof (Hbal p selected Hp Hin).
  pose proof (Hmin q Hq). pose proof (Hmin p Hp).
  assert (Hsame : forall r, fst r = fst selected ->
            load (manager_assignment_counts (bot m)) r
            = load (manager_assignment_counts (bot m)) selected).
  { intros r Hr. unfold load. now rewrite Hr. }
  destruct (decide (fst p = fst selected)) as [Hp'|Hp'];
    destruct (decide (fst q = fst selected)) as [Hq'|Hq'];
    rewrite ?(Hsame p Hp'), ?(Hsame q Hq'); lia.
Qed.

(** [assign_manager] reads the ledger only, and the pool of managers is
    never empty. *)
Lemma assign_manager_reads_ledger {World} (m : @Machine World) :
  exists (selected : string * Z) (b' : BotState),
    selected ∈ INFLUENCER_MANAGERS /\
    forall m' : @Machine World,
      bot m' = bot m ->
      assign_manager m'
      = Some (selected, mkMachine b' (world m') (events m' ++ [Saved b'])).
Proof.
  unfold assign_manager, assign_manager_from, INFLUENCER_MANAGERS.
  eexists _, _. split.
  - apply (select_manager_min (manager_assignment_counts (bot m))).
  - intros m' Hm'. unfold save, emit, with_bot. simpl. rewrite Hm'. reflexivity.
Qed.

Lemma assign_repeatedly_reads_ledger {World} (n : nat) (m m' : @Machine World) :
  bot m' = bot m ->
  (assign_repeatedly n m').1 = (assign_repeatedly n m).1 /\
  bot (assign_repeatedly n m').2 = bot (assign_repeatedly n m).2.
Proof.
  revert m m'. induction n as [|n IH]; intros m m' Hb; cbn [assign_repeatedly];
    [now split|].
  destruct (assign_manager_reads_ledger m) as (selected & b' & _ & Hsel).
  rewrite (Hsel m' Hb), (Hsel m eq_refl).
  specialize (IH (mkMachine b' (world m) (events m ++ [Saved b']))
                 (mkMachine b' (world m') (events m' ++ [Saved b'])) eq_refl).
  destruct (assign_repeatedly n (mkMachine b' (world m') _)) as [later' m2'].
  destruct (assign_repeatedly n (mkMachine b' (world m) _)) as [later m2].
  simpl in *. destruct IH as [-> ->]. now split.
Qed.

(** X11: the loop of the influencer job gives every post to exactly one
    manager.  The managers chosen are those that the same number of
    assignments in a row would choose, each a member of
    [INFLUENCER_MANAGERS]; for every post, in order, the job saves the
    ledger and then sends one message, to the manager chosen for it, and
    it does nothing else; the ledger in memory afterwards is the one of
    the last save. *)
Theorem each_post_goes_to_one_manager {World} (posts : list Tweet)
    (m : @Machine World) :
  let chosen := (assign_repeatedly (length posts) m).1 in
  let after := notify_managers posts m in
  length chosen = length posts /\
  Forall (fun manager => manager ∈ INFLUENCER_MANAGERS) chosen /\
  bot after = bot (assign_repeatedly (length posts) m).2 /\
  exists snapshots : list BotState,
    length snapshots = length posts /\
    events after
    = events m
        ++ concat (zip_with (fun assigned snapshot =>
                               assignment_events assigned.1 assigned.2 snapshot)
                            (zip posts chosen) snapshots) /\
    (posts <> [] -> last snapshots = Some (bot after)).
Proof.
  revert m. induction posts as [|post posts IH]; intros m.
  - simpl. repeat split; [constructor|]. exists []. simpl.
    rewrite app_nil_r. repeat split. congruence.
  - cbn [length assign_repeatedly notify_managers].
    destruct (assign_manager_reads_ledger m) as (selected & b' & Hin & Hsel).
    rewrite (Hsel m eq_refl). destruct selected as [name id].
    set (m1 := mkMachine b' (world m) (events m ++ [Saved b'])).
    set (m2 := send_influencer_notification post name id m1).
    destruct (assign_repeatedly_reads_ledger (length posts) m1 m2 eq_refl)
      as [Hch Hbot].
    destruct (IH m2) as (Hlen & Hall & Hafter & snapshots & Hsl & Hev & Hlast).
    rewrite Hch in Hlen, Hall, Hev. rewrite Hbot in Hafter.
    destruct (assign_repeatedly (length posts) m1) as [later m3] eqn:E.
    cbn [fst snd] in *.
    split; [simpl; now rewrite Hlen|].
    split; [constructor; [exact Hin | exact Hall]|].
    split; [exact Hafter|].
    exists (b' :: snapshots). split; [simpl; now rewrite Hsl|].
    split.
    + rewrite Hev. unfold m2, m1, send_influencer_notification, emit. simpl.
      rewrite <- !app_assoc. reflexivity.
    + intros _. destruct posts as [|post' posts'].
      * destruct snapshots; [|discriminate]. simpl in *.
        injection E as <- <-. reflexivity.
      * destruct snapshots as [|s snapshots]; [discriminate|].
        change (last (b' :: s :: snapshots)) with (last (s :: snapshots)).
        apply Hlast. discriminate.
Qed.

(** ** Batch caching of identifiers *)

Lemma lower_ascii_idempotent (c : ascii) :
  PyStr.lower_ascii (PyStr.lower_ascii c) = PyStr.lower_ascii c.
Proof. destruct c as [[] [] [] [] [] [] [] []]; reflexivity. Qed.

Lemma lower_idempotent (s : string) : PyStr.lower (PyStr.lower s) = PyStr.lower s.
Proof.
  induction s as [|c s IH]; simpl; [reflexivity|].
  now rewrite lower_ascii_idempotent, IH.
Qed.

Lemma chunks_concat {A} (l : list A) (size n : nat) :
  concat ((fun i => take size (drop i l)) <$> ((fun k => k * size)%nat <$> seq 0 n))
  = take (n * size) l.
Proof.
  induction n as [|n IH].
  - reflexivity.
  - rewrite seq_S, !fmap_app, concat_app, IH. simpl.
    rewrite app_nil_r, take_take_drop. f_equal. lia.
Qed.

Lemma chunk_count_bounds (len : nat) :
  let n := ((len + 100 - 1) / 100)%nat in
  (len <= n * 100)%nat /\ (n * 100 < len + 100)%nat.
Proof.
  intros n. subst n.
  pose proof (Nat.div_mod_eq (len + 100 - 1) 100) as Hdm.
  pose proof (Nat.mod_upper_bound (len + 100 - 1) 100) as Hmod.
  lia.
Qed.

Lemma cache_batches_concat (uncached : list string) :
  concat (cache_batches uncached) = uncached.
Proof.
  unfold cache_batches, PyStrMore.range_step.
  rewrite chunks_concat. apply take_ge.
  apply (chunk_count_bounds (length uncached)).
Qed.

(** X12: the batches of [_cache_user_ids] partition the uncached
    usernames: put end to end they are the list itself, each holds at
    least one and at most 100 usernames, and there are
    [ceil(len / 100)] of them (three for 250 usernames). *)
Theorem cache_batches_partition (uncached : list string) :
  concat (cache_batches uncached) = uncached /\
  Forall (fun batch => (1 <= length batch <= 100)%nat) (cache_batches uncached) /\
  length (cache_batches uncached) = ((length uncached + 99) / 100)%nat /\
  length (cache_batches (replicate 250 "u")) = 3%nat.
Proof.
  unfold cache_batches, PyStrMore.range_step.
  destruct (chunk_count_bounds (length uncached)) as [Hlow Hhigh].
  split; [|split; [|split]].
  - apply cache_batches_concat.
  - apply Forall_fmap, Forall_fmap, Forall_forall. intros k Hk. simpl.
    apply list_elem_of_In, in_seq in Hk.
    rewrite length_take, length_drop. lia.
  - rewrite !length_fmap, length_seq. f_equal. lia.
  - vm_compute. reflexivity.
Qed.

Section BatchCaching.
Context {World : Type}.
Variable api_get_users :
  Client -> list string -> World ->
  Outcome (option (list (string * string))) * World.

Local Abbreviation lookup_batch := (get_users_by_usernames_batch api_get_users).

(** The lookup of a batch changes the rotation state only, and sends
    nothing. *)
Lemma get_users_by_usernames_batch_frame clients usernames (m : @Machine World) :
  influencer_user_ids (bot (lookup_batch clients usernames m).2)
  = influencer_user_ids (bot m) /\
  cursor_view (bot (lookup_batch clients usernames m).2) = cursor_view (bot m) /\
  manager_assignment_counts (bot (lookup_batch clients usernames m).2)
  = manager_assignment_counts (bot m) /\
  exists new : list Event,
    events (lookup_batch clients usernames m).2 = events m ++ new /\
    Forall (fun e => is_sent e = false) new.
Proof.
  unfold get_users_by_usernames_batch.
  destruct usernames as [|u us].
  { repeat split. exists []. now rewrite app_nil_r. }
  set (op := get_users_operation api_get_users (u :: us)).
  assert (Hbot : forall client m', bot (op client m').2 = bot m').
  { intros client m'. unfold op, get_users_operation.
    destruct (api_get_users _ _ _) as [out w]. reflexivity. }
  assert (Hev : forall client m', events (op client m').2 = events m').
  { intros client m'. unfold op, get_users_operation.
    destruct (api_get_users _ _ _) as [out w]. reflexivity. }
  assert (H : influencer_user_ids (bot (tr_machine (_try_all_clients op clients m)))
              = influencer_user_ids (bot m) /\
              cursor_view (bot (tr_machine (_try_all_clients op clients m)))
              = cursor_view (bot m) /\
              manager_assignment_counts
                (bot (tr_machine (_try_all_clients op clients m)))
              = manager_assignment_counts (bot m) /\
              exists new : list Event,
                events (tr_machine (_try_all_clients op clients m))
                = events m ++ new /\
                Forall (fun e => is_sent e = false) new).
  { split; [|split; [|split]].
    - apply try_all_clients_frame; [|reflexivity|reflexivity].
      intros client m'. now rewrite Hbot.
    - apply try_all_clients_frame; [|reflexivity|reflexivity].
      intros client m'. now rewrite Hbot.
    - apply try_all_clients_frame; [|reflexivity|reflexivity].
      intros client m'. now rewrite Hbot.
    - apply try_all_clients_events; [|reflexivity].
      intros client m'. exists []. now rewrite Hev, app_nil_r. }
  destruct (tr_result _) as [[[|user data]|]|]; exact H.
Qed.

Lemma merge_user_ids_extends (user_ids : list (string * string))
    (ids : gmap string string) :
  let merged := fold_left (fun ids item => <[PyStr.lower (fst item) := snd item]> ids)
                          user_ids ids in
  (forall k, is_Some (ids !! k) -> is_Some (merged !! k)) /\
  (forall k, merged !! k <> ids !! k -> PyStr.lower k = k).
Proof.
  revert ids. induction user_ids as [|[name id] user_ids IH]; intros ids; simpl.
  - split; [auto | congruence].
  - destruct (IH (<[PyStr.lower name := id]> ids)) as [Hgrow Hlow]. split.
    + intros k Hk. apply Hgrow.
      destruct (decide (PyStr.lower name = k)) as [->|Hne].
      * rewrite lookup_insert_eq. eauto.
      * now rewrite lookup_insert_ne.
    + intros k Hk.
      destruct (decide (PyStr.lower name = k)) as [<-|Hne].
      * apply lower_idempotent.
      * apply Hlow. now rewrite lookup_insert_ne.
Qed.

Lemma cache_extends_refl (b : BotState) : cache_extends b b.
Proof. unfold cache_extends. repeat split; [auto | congruence]. Qed.

Lemma cache_extends_trans (b1 b2 b3 : BotState) :
  cache_extends b1 b2 -> cache_extends b2 b3 -> cache_extends b1 b3.
Proof.
  intros (G1 & L1 & C1 & M1) (G2 & L2 & C2 & M2).
  split; [auto|]. split; [|split; congruence].
  intros k Hk.
  destruct (decide (influencer_user_ids b3 !! k = influencer_user_ids b2 !! k))
    as [Heq|Hne]; [|now apply L2].
  apply L1. congruence.
Qed.

(** One batch: the state is extended and the last event is the save of
    the state in memory. *)
Lemma cache_one_batch_effect clients (m : @Machine World) batch :
  let after := cache_one_batch api_get_users clients m batch in
  cache_extends (bot m) (bot after) /\
  last (events after) = Some (Saved (bot after)) /\
  exists new : list Event,
    events after = events m ++ new /\
    Forall (fun e => is_sent e = false) new /\ (1 <= length new)%nat.
Proof.
  unfold cache_one_batch.
  destruct (get_users_by_usernames_batch_frame clients batch m)
    as (Hids & Hcur & Hman & new & Hev & Hnew).
  destruct (get_users_by_usernames_batch _ _ _ _) as [user_ids m1].
  cbn [fst snd] in *. cbv zeta.
  split; [|split].
  - destruct (merge_user_ids_extends user_ids (influencer_user_ids (bot m1)))
      as [Hgrow Hlow].
    unfold cache_extends. simpl. rewrite <- Hids.
    split; [exact Hgrow|]. split; [exact Hlow|]. now split.
  - simpl. apply last_snoc.
  - eexists (new ++ [_]). simpl. rewrite Hev, <- app_assoc.
    split; [reflexivity|]. split.
    + apply Forall_app. split; [exact Hnew | now repeat constructor].
    + rewrite length_app. simpl. lia.
Qed.

Lemma cache_batches_effect clients batches (m : @Machine World) :
  let after := fold_left (cache_one_batch api_get_users clients) batches m in
  cache_extends (bot m) (bot after) /\
  (batches <> [] -> last (events after) = Some (Saved (bot after))) /\
  exists new : list Event,
    events after = events m ++ new /\
    Forall (fun e => is_sent e = false) new /\
    (length batches <= length new)%nat.
Proof.
  revert m. induction batches as [|batch batches IH]; intros m;
    cbn [fold_left].
  - split; [apply cache_extends_refl|]. split; [congruence|].
    exists []. rewrite app_nil_r. split; [reflexivity|].
    split; [constructor | simpl; lia].
  - destruct (cache_one_batch_effect clients m batch)
      as (Hext1 & Hlast1 & new1 & Hev1 & Hnew1 & Hlen1).
    destruct (IH (cache_one_batch api_get_users clients m batch))
      as (Hext2 & Hlast2 & new2 & Hev2 & Hnew2 & Hlen2).
    cbv zeta in *. split; [eapply cache_extends_trans; eassumption|]. split.
    + intros _. destruct batches as [|batch' batches'].
      * exact Hlast1.
      * apply Hlast2. discriminate.
    + exists (new1 ++ new2). rewrite Hev2, Hev1, <- app_assoc.
      split; [reflexivity|]. split; [now apply Forall_app|].
      rewrite length_app. simpl. lia.
Qed.

End BatchCaching.

(** X13: what [_cache_user_ids] does.  With every tracked username in
    the cache it does nothing at all.  Otherwise it ends with a save of
    the state as it is in memory, after at least one save per batch and no
    message; it removes no cache entry, every entry it adds or rewrites
    lies under a lowercase key, and cursors and ledger are what they
    were. *)
Theorem cache_user_ids_effect {World}
    (api_get_users : Client -> list string -> World ->
                     Outcome (option (list (string * string))) * World)
    (clients : list Client) (influencers : list string) (m : @Machine World) :
  let uncached := uncached_of (influencer_user_ids (bot m)) influencers in
  let after := _cache_user_ids api_get_users clients influencers m in
  match uncached with
  | [] => after = m
  | _ :: _ => last (events after) = Some (Saved (bot after))
  end /\
  cache_extends (bot m) (bot after) /\
  exists new : list Event,
    events after = events m ++ new /\
    Forall (fun e => is_sent e = false) new /\
    (length (cache_batches uncached) <= length new)%nat.
Proof.
  intros uncached after. subst uncached after. unfold _cache_user_ids.
  destruct (uncached_of _ _) as [|u us] eqn:E.
  - split; [reflexivity|]. split; [apply cache_extends_refl|].
    exists []. rewrite app_nil_r. split; [reflexivity|].
    split; [constructor | simpl; lia].
  - destruct (cache_batches_effect api_get_users clients
                (cache_batches (u :: us)) m)
      as (Hext & Hlast & Hnew).
    split; [|split; [exact Hext | exact Hnew]].
    apply Hlast. intros Hnil.
    pose proof (cache_batches_concat (u :: us)) as Hcat.
    rewrite Hnil in Hcat. discriminate.
Qed.

(** ** Channel posts *)

Lemma startswith_dash_100 (c : ascii) (s : string) :
  PyStr.contains "-" (String c s) = false ->
  PyStr.startswith "-100" (String c s) = false /\ PyStr.contains "-" s = false.
Proof.
  cbn [PyStr.contains PyStr.startswith].
  destruct (Ascii.eqb "-" c); [discriminate|]. now split.
Qed.

(** A string without a dash has no occurrence of ["-100"] to replace. *)
Lemma replace_prefix_without_dash (s : string) :
  PyStr.contains "-" s = false -> PyStrMore.replace_from "-100" "" s 0 = s.
Proof.
  induction s as [|c s IH]; intros Hs; [reflexivity|].
  destruct (startswith_dash_100 c s Hs) as [Hstart Hrest].
  cbn [PyStrMore.replace_from]. rewrite Hstart. now rewrite IH.
Qed.

Lemma replace_channel_prefix (suffix : string) :
  PyStr.contains "-" suffix = false ->
  PyStrMore.replace "-100" "" ("-100" ++ suffix)%string = suffix.
Proof.
  intros Hs. unfold PyStrMore.replace.
  change ("-100" ++ suffix)%string
    with (String "-" (String "1" (String "0" (String "0" suffix)))).
  cbn. now apply replace_prefix_without_dash.
Qed.

Lemma emit_all_world {World A} (g : A -> Event) (l : list A) (m : @Machine World) :
  world (fold_left (fun m x => emit (g x) m) l m) = world m.
Proof.
  revert m. induction l as [|x l IH]; intros m; simpl; [reflexivity|].
  now rewrite IH.
Qed.

(** X14: forwarding of channel posts.  With a source channel configured
    as ["-100"] followed by a dash-free identifier, a post is forwarded if
    and only if its chat id is the configured one or that identifier
    without the prefix, and its text, or else its caption, is non-empty.
    A forwarded post is one message of that text to each team member, in
    order; in every case the state is left alone and nothing is saved. *)
Theorem channel_post_forwarding {World} (suffix : string) (post : ChannelPost)
    (m : @Machine World) :
  PyStr.contains "-" suffix = false ->
  let SOURCE_CHANNEL_ID := ("-100" ++ suffix)%string in
  let message_text := PyStrMore.first_truthy (cp_text post) (cp_caption post) in
  let after := handle_channel_post SOURCE_CHANNEL_ID (Some post) m in
  bot after = bot m /\
  world after = world m /\
  events after
  = events m
      ++ (if bool_decide (cp_chat_id post = SOURCE_CHANNEL_ID
                          \/ cp_chat_id post = suffix)
             && PyStr.truthy message_text
          then channel_sends message_text else []).
Proof.
  intros Hs SOURCE_CHANNEL_ID message_text after.
  subst after SOURCE_CHANNEL_ID. unfold handle_channel_post. fold message_text.
  rewrite (replace_channel_prefix suffix Hs).
  assert (Hguard : bool_decide (cp_chat_id post ≠ ("-100" ++ suffix)%string)
                   && bool_decide (cp_chat_id post ≠ suffix)
                   = negb (bool_decide (cp_chat_id post = ("-100" ++ suffix)%string
                                        \/ cp_chat_id post = suffix))).
  { repeat case_bool_decide; simpl; try reflexivity; tauto. }
  rewrite Hguard.
  destruct (bool_decide (_ \/ _)); cbn [negb andb].
  - destruct (PyStr.truthy message_text); cbn [negb].
    + unfold send_channel_notification, channel_sends.
      split; [apply emit_all_bot|]. split; [apply emit_all_world|].
      apply emit_all_events.
    + now rewrite app_nil_r.
  - now rewrite app_nil_r.
Qed.

(** ** The state file *)

Lemma decimal_int_py_str (n : Z) :
  StateFile.decimal_int (StateFile.py_str n) = Some n.
Proof.
  unfold StateFile.decimal_int, StateFile.py_str.
  rewrite NilZero.isi.
  - simpl. now rewrite DecimalZ.of_to.
  - destruct n as [|p|p]; simpl; try discriminate.
    intros [= H]. now apply Unsigned.to_uint_nonnil in H.
  - destruct n as [|p|p]; simpl; try discriminate.
    intros [= H]. now apply Unsigned.to_uint_nonnil in H.
Qed.

Section LoadFacts.
Variable py_int : string -> option Z.

Lemma int_keys_written (items : list (Z * Z)) (acc : gmap Z Z) :
  (forall n, py_int (StateFile.py_str n) = Some n) ->
  StateFile.int_keys py_int
    ((fun item : Z * Z => (StateFile.py_str item.1, item.2)) <$> items) acc
  = Some (fold_left (fun acc (item : Z * Z) => <[item.1 := item.2]> acc) items acc).
Proof.
  intros Hint. revert acc.
  induction items as [|[k v] items IH]; intros acc; simpl; [reflexivity|].
  rewrite Hint. apply IH.
Qed.

Lemma int_keys_bad_key (items : list (string * Z)) (acc : gmap Z Z) k v :
  (k, v) ∈ items -> py_int k = None -> StateFile.int_keys py_int items acc = None.
Proof.
  intros Hin Hbad. revert acc.
  induction items as [|[k' v'] items IH]; intros acc; simpl.
  - inversion Hin.
  - apply elem_of_cons in Hin as [[= <- <-]|Hin].
    + now rewrite Hbad.
    + destruct (py_int k'); [now apply IH | reflexivity].
Qed.

End LoadFacts.

Lemma insert_all_items (m : gmap Z Z) (items : list (Z * Z)) :
  items ≡ₚ map_to_list m ->
  fold_left (fun acc (item : Z * Z) => <[item.1 := item.2]> acc) items ∅ = m.
Proof.
  intros Hperm.
  assert (Hrev : rev items ≡ₚ map_to_list m).
  { rewrite <- Hperm. symmetry. apply Permutation_rev. }
  transitivity (list_to_map (rev items) : gmap Z Z).
  - unfold list_to_map. rewrite fold_left_rev_right. reflexivity.
  - rewrite <- (list_to_map_to_list m).
    apply list_to_map_proper; [|exact Hrev].
    rewrite Hrev. apply NoDup_fst_map_to_list.
Qed.

(** X15: the state survives a restart.  Loading the document that
    [save] wrote gives back the state that was saved, field for field,
    whatever the loading object held before and in whatever order the
    usage counters were written.  [int] is taken as given, with the one
    property that it reads back what [str] writes for an integer. *)
Theorem state_survives_restart (py_int : string -> option Z)
    (s self : BotState) (usage_items : list (Z * Z)) :
  (forall n, py_int (StateFile.py_str n) = Some n) ->
  usage_items ≡ₚ map_to_list (token_usage_counts s) ->
  StateFile.load py_int
    (StateFile.Document (StateFile.dump_with usage_items s)) self = s.
Proof.
  intros Hint Hperm. unfold StateFile.load, StateFile.dump_with. simpl.
  rewrite (int_keys_written py_int usage_items ∅ Hint).
  rewrite (insert_all_items _ _ Hperm).
  now destruct s.
Qed.

(** X16: a usage-counter key that [int] rejects cuts [load] short.  The
    cursors, the identity cache and the rotation index are taken from the
    document, but the usage counters and the assignment ledger, assigned
    after the failing conversion, keep the values the object had (the
    defaults, when it was just created). *)
Theorem bad_counter_key_cuts_load_short (py_int : string -> option Z)
    (data : StateFile.Doc) (self : BotState)
    (items : list (string * Z)) (k : string) (v : Z) :
  StateFile.doc_token_usage_counts data = Some items ->
  (k, v) ∈ items ->
  py_int k = None ->
  let s := StateFile.load py_int (StateFile.Document data) self in
  token_usage_counts s = token_usage_counts self /\
  manager_assignment_counts s = manager_assignment_counts self /\
  last_tweet_id s = StateFile.doc_last_tweet_id data /\
  last_medium_article s = StateFile.doc_last_medium_article data /\
  influencer_last_tweets s = default ∅ (StateFile.doc_influencer_last_tweets data) /\
  influencer_user_ids s = default ∅ (StateFile.doc_influencer_user_ids data) /\
  current_token_index s = default 0 (StateFile.doc_current_token_index data).
Proof.
  intros Hitems Hin Hbad s. subst s. unfold StateFile.load.
  rewrite Hitems. simpl.
  rewrite (int_keys_bad_key py_int items ∅ k v Hin Hbad).
  repeat split.
Qed.

(** ** The pool of tokens *)

Lemma collect_truthy (f : nat -> string) (indices : list nat) (acc : list string) :
  fold_left (fun tokens i =>
               if PyStr.truthy (f i) then tokens ++ [f i] else tokens)
            indices acc
  = acc ++ filter (fun t => PyStr.truthy t = true) (f <$> indices).
Proof.
  revert acc. induction indices as [|i indices IH]; intros acc; simpl.
  - now rewrite app_nil_r.
  - rewrite IH, filter_cons.
    destruct (PyStr.truthy (f i)) eqn:E.
    + rewrite decide_True by reflexivity. now rewrite <- app_assoc.
    + rewrite decide_False by congruence. reflexivity.
Qed.

(** X17: the tokens of the pool are the non-empty values of
    [TWITTER_BEARER_TOKEN_1] .. [TWITTER_BEARER_TOKEN_9], in that order;
    [TWITTER_BEARER_TOKEN] is used only when none of the nine is set to a
    non-empty value.  So the pool has at most nine tokens and none of
    them is empty. *)
Theorem bearer_tokens_from_environment (env : gmap string string) :
  let numbered :=
    filter (fun t => PyStr.truthy t = true)
      ((fun i => getenv env ("TWITTER_BEARER_TOKEN_"
                             ++ StateFile.py_str (Z.of_nat i))%string "")
         <$> seq 1 9) in
  let single := getenv env "TWITTER_BEARER_TOKEN" "" in
  let tokens := TWITTER_BEARER_TOKENS env in
  tokens = match numbered with
           | _ :: _ => numbered
           | [] => if PyStr.truthy single then [single] else []
           end /\
  (length tokens <= 9)%nat /\
  Forall (fun t => PyStr.truthy t = true) tokens.
Proof.
  intros numbered single tokens.
  assert (Htokens : tokens = match numbered with
                             | _ :: _ => numbered
                             | [] => if PyStr.truthy single then [single] else []
                             end).
  { subst tokens. unfold TWITTER_BEARER_TOKENS.
    rewrite (collect_truthy
               (fun i => getenv env ("TWITTER_BEARER_TOKEN_"
                                     ++ StateFile.py_str (Z.of_nat i))%string "")).
    reflexivity. }
  split; [exact Htokens|]. rewrite Htokens.
  assert (Hlen : (length numbered <= 9)%nat).
  { subst numbered. etransitivity; [apply length_filter|].
    now rewrite length_fmap, length_seq. }
  assert (Hall : Forall (fun t => PyStr.truthy t = true) numbered).
  { subst numbered. apply Forall_forall. intros t Ht.
    now apply list_elem_of_filter in Ht as [Ht _]. }
  destruct numbered as [|t ts]; [|now split].
  destruct (PyStr.truthy single) eqn:E; simpl.
  - split; [lia|]. now repeat constructor.
  - split; [lia | constructor].
Qed.

(** ** Reading usernames from the roster *)

Module RosterFacts.
Import Roster.

Lemma username_run_valid (s : string) :
  all_username_chars (username_run s).1 = true /\
  ends_username (username_run s).2 = true /\
  s = ((username_run s).1 ++ (username_run s).2)%string.
Proof.
  induction s as [|c s IH]; simpl; [now repeat split|].
  destruct (is_username_char c) eqn:E.
  - destruct (username_run s) as [run rest]. simpl in *.
    destruct IH as (Hall & Hend & Heq).
    rewrite E, Hall. split; [reflexivity|]. split; [exact Hend|].
    rewrite PyStrFacts.append_cons. now f_equal.
  - simpl. rewrite E. now repeat split.
Qed.

(** A run of username characters followed by something else is read
    back as that run. *)
Lemma username_run_app (u tail : string) :
  all_username_chars u = true -> ends_username tail = true ->
  username_run (u ++ tail)%string = (u, tail).
Proof.
  intros Hu Htail. induction u as [|c u IH].
  - rewrite PyStrFacts.append_nil. destruct tail as [|c tail]; [reflexivity|].
    simpl in *. now destruct (is_username_char c).
  - rewrite PyStrFacts.append_cons. simpl in *.
    apply andb_true_iff in Hu as [Hc Hu]. rewrite Hc, (IH Hu). reflexivity.
Qed.

Lemma after_literal_app (p s : string) :
  after_literal p (p ++ s)%string = Some s.
Proof.
  induction p as [|a p IH]; [reflexivity|].
  rewrite PyStrFacts.append_cons. simpl. now rewrite Ascii.eqb_refl.
Qed.

(** A literal found at the head of a string of username characters
    consists of username characters. *)
Lemma after_literal_username (p s rest : string) :
  after_literal p s = Some rest -> all_username_chars s = true ->
  all_username_chars p = true /\ all_username_chars rest = true.
Proof.
  revert s. induction p as [|a p IH]; intros s; simpl.
  - intros [= ->] Hs. now split.
  - destruct s as [|b s]; [discriminate|].
    destruct (Ascii.eqb_spec a b) as [->|]; [|discriminate].
    simpl. intros Hrest Hs. apply andb_true_iff in Hs as [Hb Hs].
    destruct (IH s Hrest Hs) as [Hp Hr]. now rewrite Hb, Hp.
Qed.

Lemma after_literal_foreign (p s : string) :
  all_username_chars p = false -> all_username_chars s = true ->
  after_literal p s = None.
Proof.
  intros Hp Hs. destruct (after_literal p s) as [rest|] eqn:E; [|reflexivity].
  destruct (after_literal_username p s rest E Hs) as [Hp' _]. congruence.
Qed.

Lemma match_path_valid (s u : string) :
  match_path s = Some u -> PyStr.truthy u = true /\ all_username_chars u = true.
Proof.
  unfold match_path. destruct (after_literal "/" s) as [rest|]; [|discriminate].
  destruct (PyStr.truthy (username_run rest).1) eqn:E; [|discriminate].
  intros [= <-]. split; [exact E | apply username_run_valid].
Qed.

Lemma match_host_valid (s u : string) :
  match_host s = Some u -> PyStr.truthy u = true /\ all_username_chars u = true.
Proof.
  unfold match_host.
  destruct (after_literal "twitter.com" s ≫= match_path) as [u1|] eqn:E1.
  - intros [= <-]. destruct (after_literal "twitter.com" s); [|discriminate].
    now apply match_path_valid in E1.
  - destruct (after_literal "x.com" s) as [rest|]; [|discriminate].
    apply match_path_valid.
Qed.

Lemma match_www_valid (s u : string) :
  match_www s = Some u -> PyStr.truthy u = true /\ all_username_chars u = true.
Proof.
  unfold match_www.
  destruct (after_literal "www." s ≫= match_host) as [u1|] eqn:E1.
  - intros [= <-]. destruct (after_literal "www." s); [|discriminate].
    now apply match_host_valid in E1.
  - apply match_host_valid.
Qed.

Lemma match_profile_valid (s u : string) :
  match_profile s = Some u -> PyStr.truthy u = true /\ all_username_chars u = true.
Proof.
  unfold match_profile.
  destruct (after_literal "http" s) as [rest|]; [|apply match_www_valid].
  destruct ((after_literal "s" rest ≫= after_literal "://") ≫= match_www)
    as [u1|] eqn:E1.
  - intros [= <-].
    destruct (after_literal "s" rest ≫= after_literal "://") as [r|];
      [|discriminate].
    now apply match_www_valid in E1.
  - destruct (after_literal "://" rest ≫= match_www) as [u2|] eqn:E2.
    + intros [= <-]. destruct (after_literal "://" rest); [|discriminate].
      now apply match_www_valid in E2.
    + apply match_www_valid.
Qed.

Lemma search_profile_valid (s u : string) :
  search_profile s = Some u -> PyStr.truthy u = true /\ all_username_chars u = true.
Proof.
  induction s as [|c s IH]; cbn [search_profile].
  - discriminate.
  - destruct (match_profile (String c s)) as [u1|] eqn:E; [|exact IH].
    intros [= <-]. now apply match_profile_valid in E.
Qed.

Lemma search_bare_valid (s u : string) :
  search_bare s = Some u -> PyStr.truthy u = true /\ all_username_chars u = true.
Proof.
  unfold search_bare. pose proof (username_run_valid s) as (Hall & _ & _).
  destruct (username_run s) as [run rest]. simpl in Hall.
  destruct (PyStr.truthy run) eqn:E; simpl; [|discriminate].
  destruct (_ || _); [|discriminate]. intros [= <-]. now split.
Qed.

(** No profile pattern in a string of username characters. *)
Lemma match_profile_username (s : string) :
  all_username_chars s = true -> match_profile s = None.
Proof.
  intros Hs.
  assert (Hwww : forall r, all_username_chars r = true -> match_www r = None).
  { intros r Hr. unfold match_www, match_host.
    rewrite (after_literal_foreign "www." r eq_refl Hr).
    rewrite (after_literal_foreign "twitter.com" r eq_refl Hr).
    rewrite (after_literal_foreign "x.com" r eq_refl Hr). reflexivity. }
  unfold match_profile.
  destruct (after_literal "http" s) as [rest|] eqn:E; [|now apply Hwww].
  destruct (after_literal_username "http" s rest E Hs) as [_ Hrest].
  rewrite (after_literal_foreign "://" rest eq_refl Hrest).
  destruct (after_literal "s" rest) as [rest'|] eqn:E'; cbn [mbind option_bind].
  - destruct (after_literal_username "s" rest rest' E' Hrest) as [_ Hrest'].
    rewrite (after_literal_foreign "://" rest' eq_refl Hrest').
    cbn [mbind option_bind]. now apply Hwww.
  - now apply Hwww.
Qed.

Lemma search_profile_username (s : string) :
  all_username_chars s = true -> search_profile s = None.
Proof.
  induction s as [|c s IH]; intros Hs; simpl.
  - reflexivity.
  - rewrite (match_profile_username _ Hs). simpl in Hs.
    apply andb_true_iff in Hs as [_ Hs]. now apply IH.
Qed.

End RosterFacts.

(** X18: a row that is not an @handle yields only checked usernames:
    whatever [_extract_username] returns for it is non-empty, consists of
    letters, digits and underscores, and is none of the reserved path
    segments.  A row that starts with [@] is returned as it stands behind
    the [@], unchecked: a reserved word, an empty name, any text. *)
Theorem extract_username_checks_all_but_handles (strip : string -> string)
    (value : string) :
  (forall username,
     Roster._extract_username strip value = Some username ->
     PyStr.startswith "@" (strip value) = false ->
     PyStr.truthy username = true /\
     all_username_chars username = true /\
     Roster.is_reserved username = false) /\
  (forall tail,
     strip value = ("@" ++ tail)%string ->
     Roster._extract_username strip value = Some tail).
Proof.
  split.
  - intros username Hex Hat. unfold Roster._extract_username in Hex.
    rewrite Hat in Hex.
    assert (Hbare : forall u,
              match Roster.search_bare (strip value) with
              | Some username' =>
                  if negb (Roster.is_reserved username') then Some username'
                  else None
              | None => None
              end = Some u ->
              PyStr.truthy u = true /\ all_username_chars u = true /\
              Roster.is_reserved u = false).
    { intros u Hu.
      destruct (Roster.search_bare (strip value)) as [u'|] eqn:E; [|discriminate].
      destruct (Roster.is_reserved u') eqn:Er; simpl in Hu; [discriminate|].
      injection Hu as <-.
      destruct (RosterFacts.search_bare_valid _ _ E). now repeat split. }
    destruct (Roster.search_profile (strip value)) as [u|] eqn:E;
      [|now apply Hbare].
    destruct (Roster.is_reserved u) eqn:Er; simpl in Hex; [now apply Hbare|].
    injection Hex as <-.
    destruct (RosterFacts.search_profile_valid _ _ E). now repeat split.
  - intros tail Hv. unfold Roster._extract_username. rewrite Hv. reflexivity.
Qed.

Lemma match_profile_url (scheme www host u tail : string) :
  scheme ∈ [""; "http://"; "https://"] ->
  www ∈ [""; "www."] ->
  host ∈ ["twitter.com"; "x.com"] ->
  PyStr.truthy u = true ->
  all_username_chars u = true ->
  ends_username tail = true ->
  Roster.match_profile (scheme ++ www ++ host ++ "/" ++ u ++ tail)%string = Some u /\
  PyStr.startswith "@" (scheme ++ www ++ host ++ "/" ++ u ++ tail)%string = false.
Proof.
  intros Hscheme Hwww Hhost Hne Hu Htail.
  pose proof (RosterFacts.username_run_app u tail Hu Htail) as Hrun.
  repeat (apply elem_of_cons in Hscheme as [->|Hscheme]);
    [| | |inversion Hscheme];
    repeat (apply elem_of_cons in Hwww as [->|Hwww]);
    try (inversion Hwww; fail);
    repeat (apply elem_of_cons in Hhost as [->|Hhost]);
    try (inversion Hhost; fail);
    rewrite ?PyStrFacts.append_cons, ?PyStrFacts.append_nil;
    rewrite ?PyStrFacts.append_cons, ?PyStrFacts.append_nil;
    rewrite ?PyStrFacts.append_cons, ?PyStrFacts.append_nil;
    (split; [|reflexivity]);
    unfold Roster.match_profile, Roster.match_www, Roster.match_host,
      Roster.match_path;
    simpl; rewrite Hrun; simpl; rewrite Hne; reflexivity.
Qed.

(** X19: profile links are read in all their usual spellings.  For a
    row that [strip] leaves alone and that is made of an optional
    [http://] or [https://], an optional [www.], [twitter.com] or [x.com],
    a slash, a username that is not reserved, and a rest that does not go
    on with a username character (a query, a path, nothing),
    [_extract_username] returns that username. *)
Theorem extract_username_reads_profile_links (strip : string -> string)
    (scheme www host username tail : string) :
  scheme ∈ [""; "http://"; "https://"] ->
  www ∈ [""; "www."] ->
  host ∈ ["twitter.com"; "x.com"] ->
  PyStr.truthy username = true ->
  all_username_chars username = true ->
  Roster.is_reserved username = false ->
  ends_username tail = true ->
  let link := (scheme ++ www ++ host ++ "/" ++ username ++ tail)%string in
  strip link = link ->
  Roster._extract_username strip link = Some username.
Proof.
  intros Hscheme Hwww Hhost Hne Hu Hres Htail link Hstrip.
  destruct (match_profile_url scheme www host username tail
              Hscheme Hwww Hhost Hne Hu Htail) as [Hmatch Hat].
  fold link in Hmatch, Hat.
  unfold Roster._extract_username. rewrite Hstrip, Hat.
  assert (Hsearch : Roster.search_profile link = Some username).
  { destruct link as [|c rest]; cbn [Roster.search_profile]; now rewrite Hmatch. }
  now rewrite Hsearch, Hres.
Qed.

Lemma append_empty (s : string) : (s ++ "")%string = s.
Proof.
  induction s as [|c s IH]; [reflexivity|].
  now rewrite PyStrFacts.append_cons, IH.
Qed.

(** X20: a bare username is returned as it is.  For a non-empty row of
    letters, digits and underscores that [strip] leaves alone and that is
    not reserved, [_extract_username] returns the row itself; a reserved
    word is rejected. *)
Theorem extract_username_accepts_bare_names (strip : string -> string)
    (username : string) :
  PyStr.truthy username = true ->
  all_username_chars username = true ->
  strip username = username ->
  Roster._extract_username strip username
  = if Roster.is_reserved username then None else Some username.
Proof.
  intros Hne Hu Hstrip. unfold Roster._extract_username. rewrite Hstrip.
  assert (Hat : PyStr.startswith "@" username = false).
  { destruct username as [|c rest]; [discriminate|].
    cbn [PyStr.startswith].
    destruct (Ascii.eqb_spec "@" c) as [<-|Hother]; [|reflexivity].
    simpl in Hu. discriminate. }
  rewrite Hat, (RosterFacts.search_profile_username _ Hu).
  unfold Roster.search_bare.
  rewrite <- (append_empty username) at 1.
  rewrite (RosterFacts.username_run_app username "" Hu eq_refl).
  rewrite Hne. simpl. now destruct (Roster.is_reserved username).
Qed.

(** ** Reloading the roster *)

Lemma truthy_lower (s : string) : PyStr.truthy (PyStr.lower s) = PyStr.truthy s.
Proof. now destruct s. Qed.

Lemma roster_usernames_clean (strip : string -> string) (values : list string) :
  Forall (fun u => PyStr.truthy u = true /\ PyStr.lower u = u)
         (Roster.roster_usernames strip values) /\
  (length (Roster.roster_usernames strip values) <= length values - 1)%nat.
Proof.
  unfold Roster.roster_usernames.
  replace (length values - 1)%nat with (length (drop 1 values))
    by (rewrite length_drop; lia).
  generalize (drop 1 values) as rows. intros rows.
  induction rows as [|row rows [IHall IHlen]]; simpl; unfold omap in *.
  - split; [constructor | lia].
  - destruct (PyStr.truthy row); [|split; [exact IHall | lia]].
    destruct (Roster._extract_username strip row) as [u|];
      [|split; [exact IHall | lia]].
    destruct (PyStr.truthy u) eqn:E; [|split; [exact IHall | lia]].
    simpl. split; [|lia]. constructor; [|exact IHall].
    split; [now rewrite truthy_lower | apply lower_idempotent].
Qed.

Lemma cache_user_ids_extends {World}
    (api_get_users : Client -> list string -> World ->
                     Outcome (option (list (string * string))) * World)
    (clients : list Client) (influencers : list string) (m : @Machine World) :
  cache_extends (bot m) (bot (_cache_user_ids api_get_users clients influencers m)).
Proof.
  unfold _cache_user_ids.
  destruct (uncached_of _ _) as [|u us]; [apply cache_extends_refl|].
  apply (cache_batches_effect api_get_users clients (cache_batches (u :: us)) m).
Qed.

(** X21: reloading the roster.  The new list of tracked accounts is
    read from the rows below the header alone: it depends neither on the
    header nor on the list held before; there is at most one username per
    row, and every username is non-empty and lowercase.  The reload
    removes no cache entry and touches neither cursors nor ledger.
    Without a sheet (no credentials, or reading it failed) list and state
    stay as they are. *)
Theorem roster_reload_replaces_list {World} (strip : string -> string)
    (api_get_users : Client -> list string -> World ->
                     Outcome (option (list (string * string))) * World)
    (clients : list Client) (header : string) (rows : list string)
    (influencers : list string) (m : @Machine World) :
  let reload := load_influencers_from_sheets strip api_get_users clients in
  let result := reload (Some (header :: rows)) influencers m in
  Forall (fun u => PyStr.truthy u = true /\ PyStr.lower u = u) result.1 /\
  (length result.1 <= length rows)%nat /\
  (forall header' influencers',
     reload (Some (header' :: rows)) influencers' m = result) /\
  cache_extends (bot m) (bot result.2) /\
  reload None influencers m = (influencers, m).
Proof.
  intros reload result. subst reload result.
  unfold load_influencers_from_sheets. cbn [fst snd].
  destruct (roster_usernames_clean strip (header :: rows)) as [Hall Hlen].
  split; [exact Hall|]. split; [simpl in Hlen; lia|].
  split; [reflexivity|]. split; [apply cache_user_ids_extends | reflexivity].
Qed.

(** ** The tracked-accounts monitor: which accounts, which requests *)

Section TrackedAccountsMore.
Context {World : Type}.
Variable api_get_users_tweets :
  Client -> string -> option string -> World ->
  Outcome (option (list RawTweet)) * World.

Lemma get_user_tweets_usernames api_get_user clients username since_id
    (m : @Machine World) :
  Forall (fun t => tw_username t = username)
         (get_user_tweets api_get_user api_get_users_tweets
            clients username since_id m).1.
Proof.
  unfold get_user_tweets.
  destruct (tr_result _) as [[[|tweet data]|]|]; try constructor.
  - reflexivity.
  - apply Forall_forall. intros t Ht.
    apply list_elem_of_In, in_map_iff in Ht as (raw & <- & _). reflexivity.
Qed.

(** One turn with a lowercase username: no lookup request, the cache
    stays, the tweets fetched carry the username, and only the cursor of
    that username can move. *)
Lemma check_one_influencer_lowercase api_get_user api_get_user' clients username
    (r : @InfluencerRun World) :
  PyStr.lower username = username ->
  let r' := check_one_influencer api_get_user api_get_users_tweets
              clients username r in
  r' = check_one_influencer api_get_user' api_get_users_tweets clients username r /\
  influencer_user_ids (bot (run_machine r'))
  = influencer_user_ids (bot (run_machine r)) /\
  exists tweets,
    fetched r' = fetched r ++ tweets /\
    Forall (fun t => tw_username t = username) tweets.
Proof.
  intros Hlow. unfold check_one_influencer. rewrite Hlow.
  destruct (PyStr.truthy_opt (influencer_user_ids (bot (run_machine r)) !! username))
    eqn:Hc; cbn [negb].
  - destruct (get_user_tweets_cached api_get_user api_get_user' api_get_users_tweets
                clients username
                (influencer_last_tweets (bot (run_machine r)) !! username)
                (run_machine r) Hc) as [Hsame Hids].
    rewrite <- Hsame.
    pose proof (get_user_tweets_usernames api_get_user clients username
                  (influencer_last_tweets (bot (run_machine r)) !! username)
                  (run_machine r)) as Hnames.
    destruct (get_user_tweets _ _ _ _ _ _) as [[|first rest] m1];
      cbn [fst snd] in *.
    + split; [reflexivity|]. split; [exact Hids|].
      exists []. now rewrite app_nil_r.
    + split; [reflexivity|]. split; [exact Hids|].
      now exists (first :: rest).
  - split; [reflexivity|]. split; [reflexivity|].
    exists []. now rewrite app_nil_r.
Qed.

Lemma influencer_loop_lowercase api_get_user api_get_user' clients check_list
    (r : @InfluencerRun World) :
  Forall (fun u => PyStr.lower u = u) check_list ->
  let r' := influencer_loop api_get_user api_get_users_tweets clients check_list r in
  r' = influencer_loop api_get_user' api_get_users_tweets clients check_list r /\
  influencer_user_ids (bot (run_machine r'))
  = influencer_user_ids (bot (run_machine r)) /\
  exists tweets,
    fetched r' = fetched r ++ tweets /\
    Forall (fun t => tw_username t ∈ check_list) tweets.
Proof.
  unfold influencer_loop. revert r.
  induction check_list as [|username check_list IH]; intros r Hall;
    cbn [fold_left].
  - split; [reflexivity|]. split; [reflexivity|].
    exists []. now rewrite app_nil_r.
  - inversion Hall as [|? ? Hlow Hrest]; subst.
    destruct (check_one_influencer_lowercase api_get_user api_get_user' clients
                username r Hlow) as (Hsame & Hids & tweets & Hf & Hnames).
    cbv zeta in *. rewrite <- Hsame.
    destruct (IH (check_one_influencer api_get_user api_get_users_tweets
                    clients username r) Hrest)
      as (Hsame2 & Hids2 & tweets2 & Hf2 & Hnames2).
    split; [exact Hsame2|]. split; [congruence|].
    exists (tweets ++ tweets2). split; [now rewrite Hf2, Hf, app_assoc|].
    apply Forall_app. split.
    + eapply Forall_impl; [exact Hnames|]. intros t ->. left.
    + eapply Forall_impl; [exact Hnames2|]. intros t Ht. now right.
Qed.

End TrackedAccountsMore.

(** X22: only the first 50 tracked accounts are ever checked.  On a
    roster of more than 50 usernames the run is the run over the first 50:
    the usernames behind them do not matter, they are not fetched in this
    run nor, the roster unchanged, in any later one. *)
Theorem only_first_fifty_are_checked {World}
    (api_get_user : Client -> string -> World -> Outcome (option string) * World)
    (api_get_users_tweets : Client -> string -> option string -> World ->
                            Outcome (option (list RawTweet)) * World)
    (clients : list Client) (first later later' : list string)
    (m : @Machine World) :
  length first = 50%nat ->
  check_influencer_run api_get_user api_get_users_tweets clients (first ++ later) m
  = check_influencer_run api_get_user api_get_users_tweets clients first m /\
  check_influencer_run api_get_user api_get_users_tweets clients (first ++ later) m
  = check_influencer_run api_get_user api_get_users_tweets clients
      (first ++ later') m.
Proof.
  intros Hlen.
  assert (Hrun : forall l,
            check_influencer_run api_get_user api_get_users_tweets clients l m
            = check_influencer_run api_get_user api_get_users_tweets clients
                (take 50 l) m).
  { intros l. unfold check_influencer_run, batch_size.
    destruct l as [|u us]; [reflexivity|].
    rewrite take_take. change (50 `min` 50)%nat with 50%nat.
    reflexivity. }
  assert (Htake : forall rest, take 50 (first ++ rest) = first).
  { intros rest. rewrite take_app_le by lia. apply take_ge. lia. }
  split.
  - now rewrite (Hrun (first ++ later)), Htake.
  - now rewrite (Hrun (first ++ later)), (Hrun (first ++ later')), !Htake.
Qed.

(** X23: a run over lowercase usernames, as the roster loader produces
    them, sends no lookup request: it is the same run whatever the lookup
    service would answer, it leaves the identity cache as it was, and
    every tweet it fetches carries one of the first 50 usernames. *)
Theorem run_over_lowercase_roster_never_looks_up {World}
    (api_get_user api_get_user' :
       Client -> string -> World -> Outcome (option string) * World)
    (api_get_users_tweets : Client -> string -> option string -> World ->
                            Outcome (option (list RawTweet)) * World)
    (clients : list Client) (influencers : list string) (m : @Machine World) :
  Forall (fun u => PyStr.lower u = u) influencers ->
  let r := check_influencer_run api_get_user api_get_users_tweets
             clients influencers m in
  r = check_influencer_run api_get_user' api_get_users_tweets clients influencers m /\
  influencer_user_ids (bot (run_machine r)) = influencer_user_ids (bot m) /\
  Forall (fun t => tw_username t ∈ take 50 influencers) (fetched r).
Proof.
  intros Hall r. subst r. unfold check_influencer_run, batch_size.
  destruct influencers as [|u us].
  - split; [reflexivity|]. split; [reflexivity | constructor].
  - destruct (influencer_loop_lowercase api_get_users_tweets
                api_get_user api_get_user' clients (take 50 (u :: us))
                (mkInfluencerRun [] [] m) (Forall_take _ _ _ Hall))
      as (Hsame & Hids & tweets & Hf & Hnames).
    cbv zeta in *. rewrite <- Hsame.
    destruct (new_posts _) as [|p ps] eqn:E;
      cbn [fetched run_machine save emit bot].
    + split; [reflexivity|]. split; [exact Hids|]. rewrite Hf. exact Hnames.
    + split; [reflexivity|]. split; [exact Hids|]. rewrite Hf. exact Hnames.
Qed.

(** X24: one turn of the tracked-accounts loop moves the cursor of the
    account checked and no other: the cursor of every other account is
    what it was, and the cursor of the account checked is either what it
    was (nothing fetched) or the identifier of the first tweet fetched in
    the turn. *)
Theorem turn_moves_only_its_own_cursor {World}
    (api_get_user : Client -> string -> World -> Outcome (option string) * World)
    (api_get_users_tweets : Client -> string -> option string -> World ->
                            Outcome (option (list RawTweet)) * World)
    (clients : list Client) (username : string) (r : @InfluencerRun World) :
  let r' := check_one_influencer api_get_user api_get_users_tweets
              clients username r in
  let cursors := influencer_last_tweets (bot (run_machine r)) in
  let cursors' := influencer_last_tweets (bot (run_machine r')) in
  (forall k, k <> PyStr.lower username -> cursors' !! k = cursors !! k) /\
  exists tweets,
    fetched r' = fetched r ++ tweets /\
    cursors' !! PyStr.lower username
    = match tweets with
      | [] => cursors !! PyStr.lower username
      | first :: _ => Some (tw_id first)
      end.
Proof.
  intros r' cursors cursors'. subst r' cursors cursors'.
  destruct (check_one_influencer_step api_get_user api_get_users_tweets
              clients username r) as (tweets & Hf & _ & Hcur).
  split.
  - intros k Hk. destruct tweets as [|first rest].
    + unfold cursor_view in Hcur. congruence.
    + rewrite Hcur. now apply lookup_insert_ne.
  - exists tweets. split; [exact Hf|]. destruct tweets as [|first rest].
    + unfold cursor_view in Hcur. congruence.
    + rewrite Hcur. apply lookup_insert_eq.
Qed.

(** ** The further statements at work on scripted inputs *)

(** A stored index outside the pool (7, for two clients): the call
    starts at client 1, which is served. *)
Lemma successful_call_bookkeeping_witness :
  let operation :=
    get_user_tweets_operation Demo.get_user Demo.get_users_tweets "alice" None in
  let clients := ["limited"; "good"] in
  let m := Demo.boot (set_current_token_index 7 Demo.alice_known) [Demo.T1] in
  let after := tr_machine (_try_all_clients operation clients m) in
  tr_result (_try_all_clients operation clients m) = Some (Some [Demo.T1]) /\
  0 <= current_token_index (bot after) < 2 /\
  token_usage_counts (bot after)
  = <[current_token_index (bot after)
        := count_of (token_usage_counts (bot m)) (current_token_index (bot after)) + 1]>
      (token_usage_counts (bot m)) /\
  last (events after) = Some (Saved (bot after)).
Proof.
  intros operation clients m after.
  assert (Hres : tr_result (_try_all_clients operation clients m)
                 = Some (Some [Demo.T1])) by (vm_compute; reflexivity).
  split; [exact Hres|].
  apply (successful_call_bookkeeping operation clients m (Some [Demo.T1]));
    [apply get_user_tweets_operation_keeps_rotation | exact Hres].
Defined.

Lemma gives_up_only_after_all_clients_witness :
  let operation :=
    get_user_tweets_operation Demo.get_user Demo.get_users_tweets "alice" None in
  let clients := ["limited"; "broken"; "limited"] in
  let m := Demo.boot (set_current_token_index 2 Demo.alice_known) [Demo.T1] in
  tr_tried (_try_all_clients operation clients m) = [2; 0; 1] /\
  tr_tried (_try_all_clients operation clients m) ≡ₚ seqZ 0 3.
Proof.
  intros operation clients m. split; [vm_compute; reflexivity|].
  apply (gives_up_only_after_all_clients operation clients m).
  vm_compute. reflexivity.
Defined.

Lemma cached_identifier_needs_no_lookup_witness :
  let m := Demo.boot Demo.alice_known [Demo.T1] in
  get_user_tweets Demo.get_user Demo.get_users_tweets ["good"] "alice" None m
  = get_user_tweets Scenario.lookup_down Demo.get_users_tweets ["good"] "alice" None m
  /\
  influencer_user_ids
    (bot (get_user_tweets Demo.get_user Demo.get_users_tweets
            ["good"] "alice" None m).2)
  = influencer_user_ids (bot m).
Proof.
  intros m.
  apply (cached_identifier_needs_no_lookup Demo.get_user Scenario.lookup_down
           Demo.get_users_tweets ["good"] "alice" None m).
  vm_compute. reflexivity.
Defined.

(** Fetching another account resolves and caches its identifier and
    leaves the entry of ["alice"] alone. *)
Lemma fetch_changes_only_unresolved_entry_witness :
  let m := Demo.boot Demo.alice_known [Demo.T1] in
  let after :=
    (get_user_tweets Demo.get_user Demo.get_users_tweets ["good"] "bob" None m).2 in
  influencer_user_ids (bot after) !! "bob" = Some "42" /\
  influencer_user_ids (bot after) !! "alice" = Some "42".
Proof.
  intros m after. split; [vm_compute; reflexivity|].
  destruct (fetch_changes_only_unresolved_entry Demo.get_user
              Demo.get_users_tweets ["good"] "bob" None m) as [Hkeep _].
  subst after. rewrite (Hkeep "alice"); [vm_compute; reflexivity|].
  left. discriminate.
Defined.

(** With the cursor on the second of three entries, the check returns
    the first one. *)
Lemma feed_check_returns_newer_prefix_witness :
  let m := Demo.boot (set_last_medium_article (Some "e2") initial_state) [] in
  (check_for_new_articles Scenario.feed m).1
  = [article_dict (Scenario.entry "e3")] /\
  exists k : nat,
    (k <= 5)%nat /\
    (check_for_new_articles Scenario.feed m).1
    = article_dict <$> take k [Scenario.entry "e3"; Scenario.entry "e2";
                               Scenario.entry "e1"] /\
    Forall (fun e => Some (entry_id e) <> last_medium_article (bot m)
                     \/ PyStr.truthy_opt (last_medium_article (bot m)) = false)
           (take k [Scenario.entry "e3"; Scenario.entry "e2"; Scenario.entry "e1"]) /\
    ((k < 5)%nat ->
     (k < length [Scenario.entry "e3"; Scenario.entry "e2"; Scenario.entry "e1"])%nat ->
     exists e,
       [Scenario.entry "e3"; Scenario.entry "e2"; Scenario.entry "e1"] !! k = Some e /\
       last_medium_article (bot m) = Some (entry_id e)).
Proof.
  intros m. split; [vm_compute; reflexivity|].
  apply (feed_check_returns_newer_prefix Scenario.feed m
           [Scenario.entry "e3"; Scenario.entry "e2"; Scenario.entry "e1"] []).
  reflexivity.
Defined.

(** With the cursor on the second of three entries, the job saves the
    state whose cursor is the first entry and then sends the one new
    article. *)
Lemma medium_job_saves_before_sending_witness :
  let m := Demo.boot (set_last_medium_article (Some "e2") initial_state) [] in
  let after := check_medium_job Scenario.feed m in
  (check_for_new_articles Scenario.feed m).1
  = [article_dict (Scenario.entry "e3")] /\
  last_medium_article (bot m) = Some "e2" /\
  last_medium_article (bot after) = Some "e3" /\
  bot after = set_last_medium_article (Some "e3") (bot m) /\
  events after
  = events m ++ [Saved (bot after)]
    ++ medium_sends (article_dict (Scenario.entry "e3")).
Proof.
  intros m after.
  assert (Harticles : (check_for_new_articles Scenario.feed m).1
                      = [article_dict (Scenario.entry "e3")])
    by (vm_compute; reflexivity).
  split; [exact Harticles|]. split; [reflexivity|].
  pose proof (medium_job_saves_before_sending Scenario.feed m) as H.
  cbv zeta in H. rewrite Harticles in H.
  destruct H as (newest & older & w & Hfeed & Hcursor & Hbot & Hevents).
  unfold Scenario.feed in Hfeed. injection Hfeed as <- <- <-.
  split; [exact Hcursor|]. split; [exact Hbot|].
  fold after in Hevents. rewrite Hevents.
  cbn [map concat]. now rewrite app_nil_r.
Defined.

Lemma feed_check_twice_is_quiet_witness :
  let m := Demo.boot initial_state [] in
  let m1 := (check_for_new_articles Scenario.feed m).2 in
  length (check_for_new_articles Scenario.feed m).1 = 3%nat /\
  last_medium_article (bot m1) = Some (entry_id (Scenario.entry "e3")) /\
  (check_for_new_articles Scenario.feed m1).1 = [] /\
  bot (check_for_new_articles Scenario.feed m1).2 = bot m1 /\
  events (check_for_new_articles Scenario.feed m1).2 = events m1.
Proof.
  intros m m1. split; [vm_compute; reflexivity|].
  apply (feed_check_twice_is_quiet Scenario.feed m (Scenario.entry "e3")
           [Scenario.entry "e2"; Scenario.entry "e1"] [] []);
    [reflexivity | reflexivity | vm_compute; discriminate].
Defined.

(** The entry without identifier is reported by the first check and by
    the one after it. *)
Lemma feed_entry_without_id_is_reported_again_witness :
  let m := Demo.boot initial_state [] in
  let m1 := (check_for_new_articles Scenario.anonymous_feed m).2 in
  (check_for_new_articles Scenario.anonymous_feed m).1
  = [article_dict Scenario.anonymous_entry] /\
  (check_for_new_articles Scenario.anonymous_feed m1).1 <> [] /\
  head (check_for_new_articles Scenario.anonymous_feed m1).1
  = Some (article_dict Scenario.anonymous_entry) /\
  last_medium_article (bot (check_for_new_articles Scenario.anonymous_feed m1).2)
  = Some "" /\
  PyStr.truthy_opt
    (last_medium_article (bot (check_for_new_articles Scenario.anonymous_feed m1).2))
  = false.
Proof.
  intros m m1. split; [vm_compute; reflexivity|].
  apply (feed_entry_without_id_is_reported_again Scenario.anonymous_feed m1
           Scenario.anonymous_entry [] []); reflexivity.
Defined.

Lemma assignment_keeps_ledger_balanced_witness :
  assign_manager_from INFLUENCER_MANAGERS Scenario.igor_ahead
  = Some (("Roman", 883728320), Scenario.igor_ahead_assigned) /\
  balanced (manager_assignment_counts (bot Scenario.igor_ahead)) INFLUENCER_MANAGERS /\
  balanced (manager_assignment_counts (bot Scenario.igor_ahead_assigned))
           INFLUENCER_MANAGERS.
Proof.
  assert (Hassign : assign_manager_from INFLUENCER_MANAGERS Scenario.igor_ahead
                    = Some (("Roman", 883728320), Scenario.igor_ahead_assigned))
    by (vm_compute; reflexivity).
  assert (Hbal : balanced (manager_assignment_counts (bot Scenario.igor_ahead))
                          INFLUENCER_MANAGERS).
  { intros p q Hp Hq. unfold INFLUENCER_MANAGERS in Hp, Hq.
    repeat (apply elem_of_cons in Hp as [->|Hp]); [| | |inversion Hp];
      repeat (apply elem_of_cons in Hq as [->|Hq]); try (inversion Hq; fail);
      vm_compute; discriminate. }
  split; [exact Hassign|]. split; [exact Hbal|].
  apply (assignment_keeps_ledger_balanced INFLUENCER_MANAGERS
           Scenario.igor_ahead Scenario.igor_ahead_assigned
           ("Roman", 883728320) Hbal Hassign).
Defined.

(** Two posts on a fresh ledger go to Igor and to Roman. *)
Lemma each_post_goes_to_one_manager_witness :
  let posts := [tweet_dict "alice" Demo.T2; tweet_dict "bob" Demo.T2] in
  let m := Demo.boot initial_state [] in
  filter (fun e => is_sent e = true) (events (notify_managers posts m))
  = [Sent 422264082 (influencer_message (tweet_dict "alice" Demo.T2));
     Sent 883728320 (influencer_message (tweet_dict "bob" Demo.T2))] /\
  length (assign_repeatedly (length posts) m).1 = length posts /\
  Forall (fun manager => manager ∈ INFLUENCER_MANAGERS)
         (assign_repeatedly (length posts) m).1.
Proof.
  intros posts m. split; [vm_compute; reflexivity|].
  destruct (each_post_goes_to_one_manager posts m) as (Hlen & Hall & _).
  split; [exact Hlen | exact Hall].
Defined.

(** The configured channel [-1003415917767] and a post from chat
    [3415917767]. *)
Lemma channel_post_forwarding_witness :
  let post := mkChannelPost "3415917767" None (Some "see the caption") in
  let m := Demo.boot initial_state [] in
  let after := handle_channel_post "-1003415917767" (Some post) m in
  bot after = bot m /\
  world after = world m /\
  events after = events m ++ channel_sends "see the caption".
Proof.
  intros post m after.
  destruct (channel_post_forwarding "3415917767" post m eq_refl)
    as (Hbot & Hworld & Hev).
  split; [exact Hbot|]. split; [exact Hworld|]. exact Hev.
Defined.

Lemma state_survives_restart_witness :
  StateFile.load StateFile.decimal_int
    (StateFile.Document
       (StateFile.dump_with (map_to_list (token_usage_counts Scenario.saved_state))
                            Scenario.saved_state))
    initial_state
  = Scenario.saved_state.
Proof.
  apply (state_survives_restart StateFile.decimal_int Scenario.saved_state
           initial_state (map_to_list (token_usage_counts Scenario.saved_state)));
    [exact decimal_int_py_str | reflexivity].
Defined.

Lemma bad_counter_key_cuts_load_short_witness :
  let s := StateFile.load StateFile.decimal_int
             (StateFile.Document Scenario.damaged_doc) Scenario.saved_state in
  StateFile.decimal_int "one" = None /\
  token_usage_counts s = token_usage_counts Scenario.saved_state /\
  manager_assignment_counts s = manager_assignment_counts Scenario.saved_state /\
  last_tweet_id s = Some "1003" /\
  current_token_index s = 1.
Proof.
  intros s. split; [reflexivity|].
  destruct (bad_counter_key_cuts_load_short StateFile.decimal_int
              Scenario.damaged_doc Scenario.saved_state
              [("0", 4); ("one", 7)] "one" 7 eq_refl)
    as (H1 & H2 & H3 & _ & _ & _ & H7);
    [right; left | reflexivity |].
  split; [exact H1|]. split; [exact H2|]. split; [exact H3 | exact H7].
Defined.

Lemma extract_username_checks_all_but_handles_witness :
  Roster._extract_username Roster.strip_ascii " https://x.com/Bob?s=1 " = Some "Bob" /\
  (PyStr.truthy "Bob" = true /\ all_username_chars "Bob" = true /\
   Roster.is_reserved "Bob" = false) /\
  Roster._extract_username Roster.strip_ascii " @intent" = Some "intent".
Proof.
  split; [vm_compute; reflexivity|]. split.
  - apply (proj1 (extract_username_checks_all_but_handles Roster.strip_ascii
                    " https://x.com/Bob?s=1 ") "Bob");
      vm_compute; reflexivity.
  - apply (proj2 (extract_username_checks_all_but_handles Roster.strip_ascii
                    " @intent") "intent").
    vm_compute. reflexivity.
Defined.

Lemma extract_username_reads_profile_links_witness :
  Roster._extract_username Roster.strip_ascii
    ("https://" ++ "www." ++ "twitter.com" ++ "/" ++ "carol_1" ++ "/status/5")%string
  = Some "carol_1".
Proof.
  apply (extract_username_reads_profile_links Roster.strip_ascii
           "https://" "www." "twitter.com" "carol_1" "/status/5");
    try (vm_compute; reflexivity).
  - right. right. left.
  - right. left.
  - left.
Defined.

Lemma extract_username_accepts_bare_names_witness :
  Roster._extract_username Roster.strip_ascii "erin_99" = Some "erin_99" /\
  Roster._extract_username Roster.strip_ascii "Share" = None.
Proof.
  split.
  - apply (extract_username_accepts_bare_names Roster.strip_ascii "erin_99");
      vm_compute; reflexivity.
  - apply (extract_username_accepts_bare_names Roster.strip_ascii "Share");
      vm_compute; reflexivity.
Defined.

Lemma only_first_fifty_are_checked_witness :
  let first := replicate 50 "carol" in
  let m := Demo.boot Demo.alice_known [Demo.T1] in
  check_influencer_run Demo.get_user Demo.get_users_tweets ["good"]
    (first ++ ["alice"]) m
  = check_influencer_run Demo.get_user Demo.get_users_tweets ["good"] first m /\
  check_influencer_run Demo.get_user Demo.get_users_tweets ["good"]
    (first ++ ["alice"]) m
  = check_influencer_run Demo.get_user Demo.get_users_tweets ["good"]
      (first ++ []) m.
Proof.
  intros first m.
  apply (only_first_fifty_are_checked Demo.get_user Demo.get_users_tweets
           ["good"] first ["alice"] [] m).
  reflexivity.
Defined.

Lemma run_over_lowercase_roster_never_looks_up_witness :
  let m := Demo.boot Demo.alice_known [Demo.T2; Demo.T1] in
  let r := check_influencer_run Demo.get_user Demo.get_users_tweets
             ["good"] ["alice"; "bob"] m in
  r = check_influencer_run Scenario.lookup_down Demo.get_users_tweets
        ["good"] ["alice"; "bob"] m /\
  influencer_user_ids (bot (run_machine r)) = influencer_user_ids (bot m) /\
  Forall (fun t => tw_username t ∈ take 50 ["alice"; "bob"]) (fetched r).
Proof.
  intros m r.
  apply (run_over_lowercase_roster_never_looks_up Demo.get_user
           Scenario.lookup_down Demo.get_users_tweets ["good"] ["alice"; "bob"] m).
  repeat constructor.
Defined.

(** A turn for ["alice"] leaves the cursor of ["bob"] alone. *)
Lemma turn_moves_only_its_own_cursor_witness :
  let m := Demo.boot (set_influencer_last_tweets {["bob" := "77"]} Demo.alice_known)
                     [Demo.T2; Demo.T1] in
  let r' := check_one_influencer Demo.get_user Demo.get_users_tweets
              ["good"] "alice" (mkInfluencerRun [] [] m) in
  influencer_last_tweets (bot (run_machine r')) !! "alice" = Some "1002" /\
  influencer_last_tweets (bot (run_machine r')) !! "bob" = Some "77".
Proof.
  intros m r'. split; [vm_compute; reflexivity|].
  destruct (turn_moves_only_its_own_cursor Demo.get_user Demo.get_users_tweets
              ["good"] "alice" (mkInfluencerRun [] [] m)) as [Hother _].
  subst r'. rewrite (Hother "bob"); [vm_compute; reflexivity | discriminate].
Defined.
